(** * Verification of find_duplicates.py

    A shallow embedding of the duplicate report generator: the path
    operations it uses, the match sets read from the detector's JSON
    output, the folder cache, the per-folder analysis, the byte-size
    formatter and the Markdown report. *)

From Stdlib Require Import ZArith Ascii String List Lia.
From Stdlib Require Import Floats.SpecFloat.
From stdpp Require Import base tactics option list sets gmap strings pretty sorting.

Set Warnings "-register-all,-clear-no-such-hyp".

Local Open Scope Z_scope.
Local Open Scope string_scope.

(** ** Exceptions

    Python code fails by raising; every fallible function of the model
    returns in [result]. *)

Inductive exn : Type :=
  | KeyError
  | TypeError
  | ValueError
  | OverflowError
  | IndexError
  | OSError.

Inductive result (A : Type) : Type :=
  | Ok (a : A)
  | Raise (e : exn).
Arguments Ok {A} a.
Arguments Raise {A} e.

#[global] Instance result_ret : MRet result := fun A a => Ok a.
#[global] Instance result_bind : MBind result := fun A B f m =>
  match m with
  | Ok a => f a
  | Raise e => Raise e
  end.
#[global] Instance result_fmap : FMap result := fun A B f m =>
  match m with
  | Ok a => Ok (f a)
  | Raise e => Raise e
  end.

Definition is_Ok {A} (m : result A) : Prop := exists a, m = Ok a.

(** ** Strings *)

Definition newline : string := String "010" EmptyString.
Definition tab : string := String "009" EmptyString.

(** [sep.join(l)] *)
Fixpoint join (sep : string) (l : list string) : string :=
  match l with
  | [] => ""
  | [x] => x
  | x :: l' => x +:+ sep +:+ join sep l'
  end.

(** [s.split(sep)] for a one-character separator. *)
Fixpoint split (sep : ascii) (s : string) : list string :=
  match s with
  | EmptyString => [EmptyString]
  | String c s' =>
      if Ascii.eqb c sep then EmptyString :: split sep s'
      else match split sep s' with
           | [] => [String c EmptyString]
           | w :: ws => String c w :: ws
           end
  end.

(** [s.rstrip(c)] for a one-character set. *)
Fixpoint rstrip (c : ascii) (s : string) : string :=
  match s with
  | EmptyString => EmptyString
  | String a s' =>
      match rstrip c s' with
      | EmptyString => if Ascii.eqb a c then EmptyString else String a EmptyString
      | r => String a r
      end
  end.

(** ** Paths (pathlib.PurePosixPath)

    A path is its root ([""], ["/"] or ["//"]) and the list of its
    components; two paths are equal when both agree. *)

Module Path.

Record t : Type := mk { root : string; tail : list string }.

#[global] Instance eq_dec : EqDecision t.
Proof. solve_decision. Defined.

#[global] Instance countable : Countable t.
Proof.
  apply (inj_countable' (fun p => root p :: tail p)
                        (fun l => match l with
                                  | [] => mk "" []
                                  | r :: tl => mk r tl
                                  end)).
  by intros [].
Defined.

(** posixpath.splitroot *)
Definition splitroot (p : string) : string * string :=
  match p with
  | String "/" (String "/" rest) =>
      match rest with
      | String "/" _ => ("/", String "/" rest)
      | _ => ("//", rest)
      end
  | String "/" rest => ("/", rest)
  | _ => ("", p)
  end.

Definition keep_part (x : string) : bool :=
  negb (String.eqb x "") && negb (String.eqb x ".").

(** [Path(s)] *)
Definition of_str (s : string) : t :=
  let '(r, rel) := splitroot s in
  mk r (List.filter keep_part (split "/" rel)).

(** [str(p)] *)
Definition str (p : t) : string :=
  match root p, tail p with
  | "", [] => "."
  | r, tl => r +:+ join "/" tl
  end.

(** [p.parent] *)
Definition parent (p : t) : t :=
  match tail p with
  | [] => p
  | _ => mk (root p) (removelast (tail p))
  end.

(** [p.name] *)
Definition name (p : t) : string := List.last (tail p) "".

Fixpoint is_prefix (l1 l2 : list string) : bool :=
  match l1, l2 with
  | [], _ => true
  | x :: l1', y :: l2' => String.eqb x y && is_prefix l1' l2'
  | _ :: _, [] => false
  end.

(** [p.is_relative_to(other)]: [other] is [p] or one of its parents. *)
Definition is_relative_to (p other : t) : bool :=
  String.eqb (root p) (root other) && is_prefix (tail other) (tail p).

(** [p.relative_to(other)] *)
Definition relative_to (p other : t) : result t :=
  if is_relative_to p other
  then Ok (mk "" (drop (length (tail other)) (tail p)))
  else Raise ValueError.

End Path.

Abbreviation Path := Path.t.

(** ** Python values read from JSON ([json.loads]) *)

Inductive pyval : Type :=
  | PNone
  | PBool (b : bool)
  | PInt (z : Z)
  | PFloat (x : spec_float)
  | PStr (s : string)
  | PList (l : list pyval)
  | PDict (d : list (string * pyval)).

Fixpoint dict_get (d : list (string * pyval)) (k : string) : option pyval :=
  match d with
  | [] => None
  | (k', v) :: d' => if String.eqb k' k then Some v else dict_get d' k
  end.

(** [v[k]] for a string key: only a dict can be subscripted by one. *)
Definition getitem (v : pyval) (k : string) : result pyval :=
  match v with
  | PDict d =>
      match dict_get d k with
      | Some x => Ok x
      | None => Raise KeyError
      end
  | _ => Raise TypeError
  end.

Fixpoint chars (s : string) : list pyval :=
  match s with
  | EmptyString => []
  | String c s' => PStr (String c EmptyString) :: chars s'
  end.

(** The items a [for] loop over [v] visits. *)
Definition iter (v : pyval) : result (list pyval) :=
  match v with
  | PList l => Ok l
  | PDict d => Ok (map (fun kv => PStr (fst kv)) d)
  | PStr s => Ok (chars s)
  | _ => Raise TypeError
  end.

(** [Path(v)] *)
Definition Path_of (v : pyval) : result Path :=
  match v with
  | PStr s => Ok (Path.of_str s)
  | _ => Raise TypeError
  end.

Fixpoint foldlM {A B} (f : B -> A -> result B) (b : B) (l : list A) : result B :=
  match l with
  | [] => Ok b
  | x :: l' => b' ← f b x; foldlM f b' l'
  end.

(** ** class MatchSet *)

Module MatchSet.

(** A match set object: [id] is the object's identity (the class
    defines neither [__eq__] nor [__hash__], so sets of match sets
    compare by identity); the size is the [int] the detector reports. *)
Record t : Type := mk { id : positive; file_size : Z; file_list : list Path }.

#[global] Instance eq_dec : EqDecision t.
Proof. solve_decision. Defined.

#[global] Instance countable : Countable t.
Proof.
  apply (inj_countable' (fun m => (id m, file_size m, file_list m))
                        (fun x => mk (fst (fst x)) (snd (fst x)) (snd x))).
  by intros [].
Defined.

(** The attributes [__init__] stores: [_file_size] is whatever value
    the record holds under ["fileSize"]. *)
Record attrs : Type := mk_attrs { _file_size : pyval; _file_list : list Path }.

Definition _get_file_list (json_data : pyval) : result (list Path) :=
  file_list_json ← getitem json_data "fileList";
  items ← iter file_list_json;
  foldlM (fun res str_path =>
            file_path ← getitem str_path "filePath";
            p ← Path_of file_path;
            mret (res ++ [p])%list)
         [] items.

Definition init (json_data : pyval) : result attrs :=
  size ← getitem json_data "fileSize";
  files ← _get_file_list json_data;
  mret (mk_attrs size files).

(** The object at identity [i] with these attributes, when the size
    is an [int]. *)
Definition typed (i : positive) (a : attrs) : option t :=
  match _file_size a with
  | PInt z => Some (mk i z (_file_list a))
  | _ => None
  end.

Definition directory_list (self : t) : list Path :=
  map Path.parent (file_list self).

End MatchSet.

Abbreviation MatchSet := MatchSet.t.

(** ** class DuplicateInFolder (frozen dataclass: equality by fields) *)

Module DuplicateInFolder.

Record t : Type :=
  mk { in_duplicate_folder : Path; other_paths : gset Path; size : Z }.

#[global] Instance eq_dec : EqDecision t.
Proof. solve_decision. Defined.

#[global] Instance countable : Countable t.
Proof.
  apply (inj_countable'
           (fun e => (size e, in_duplicate_folder e :: elements (other_paths e)))
           (fun x => match snd x with
                     | [] => mk (Path.mk "" []) ∅ (fst x)
                     | p :: others => mk p (list_to_set others) (fst x)
                     end)).
  intros [p others z]. simpl. by rewrite list_to_set_elements_L.
Defined.

End DuplicateInFolder.

Abbreviation DuplicateInFolder := DuplicateInFolder.t.

(** [s.remove(x)] on a set raises when [x] is absent. *)
Definition set_remove `{Countable A} (x : A) (s : gset A) : result (gset A) :=
  if decide (x ∈ s) then Ok (s ∖ {[x]}) else Raise KeyError.

(** [sum(l)] over integers *)
Definition sum (l : list Z) : Z := foldl Z.add 0 l.

(** ** Numbers: [int] and [float] (IEEE 754 binary64) *)

Definition prec : Z := 53.
Definition emax : Z := 1024.

Inductive num : Type :=
  | NInt (z : Z)
  | NFloat (x : spec_float).

(** [float(z)]: round to nearest even; a result beyond the largest
    finite float raises. *)
Definition float_of_int (z : Z) : result spec_float :=
  match binary_normalize prec emax z 0 false with
  | S754_infinity _ => Raise OverflowError
  | x => Ok x
  end.

Definition to_float (n : num) : result spec_float :=
  match n with
  | NInt z => float_of_int z
  | NFloat x => Ok x
  end.

Definition float_1024 : spec_float := S754_finite false (2 ^ 52)%positive (-42).

(** [n >= 1024] *)
Definition ge_1024 (n : num) : bool :=
  match n with
  | NInt z => (1024 <=? z)%Z
  | NFloat x => SFleb float_1024 x
  end.

(** [n / 1024.] *)
Definition div_1024 (n : num) : result num :=
  x ← to_float n;
  mret (NFloat (SFdiv prec emax x float_1024)).

(** The fraction [n / d] rounded to the nearest integer, ties to even. *)
Definition round_half_even (n d : Z) : Z :=
  let q := n / d in
  let r := n mod d in
  match 2 * r ?= d with
  | Lt => q
  | Gt => q + 1
  | Eq => if Z.even q then q else q + 1
  end.

(** The value [m * 2 ^ e] of a finite float in hundredths, correctly
    rounded: the digits [format(x, '.2f')] prints. *)
Definition hundredths (m : positive) (e : Z) : Z :=
  if (0 <=? e)%Z then Z.pos m * 100 * 2 ^ e
  else round_half_even (Z.pos m * 100) (2 ^ (- e)).

Definition sign_str (s : bool) : string := if s then "-" else "".

Definition fixed2 (s : bool) (h : Z) : string :=
  sign_str s +:+ pretty (h / 100) +:+ "."
    +:+ pretty (h mod 100 / 10) +:+ pretty (h mod 10).

(** [f'{x:.2f}'] for a float *)
Definition format_2f (x : spec_float) : string :=
  match x with
  | S754_nan => "nan"
  | S754_infinity s => sign_str s +:+ "inf"
  | S754_zero s => fixed2 s 0
  | S754_finite s m e => fixed2 s (hundredths m e)
  end.

(** [f'{n:.2f}']: an [int] is converted to [float] first. *)
Definition format_num_2f (n : num) : result string :=
  x ← to_float n;
  mret (format_2f x).

(** ** humansize *)

Definition suffixes : list string := ["B"; "KB"; "MB"; "GB"; "TB"; "PB"].

(** The [while] loop; [remaining] is [len(suffixes) - 1 - i], so the
    test [i < len(suffixes) - 1] is [remaining] being a successor. *)
Fixpoint humansize_loop (remaining : nat) (nbytes : num) (i : nat)
  : result (num * nat) :=
  match remaining with
  | O => Ok (nbytes, i)
  | S remaining' =>
      if ge_1024 nbytes then
        nbytes' ← div_1024 nbytes;
        humansize_loop remaining' nbytes' (i + 1)%nat
      else Ok (nbytes, i)
  end.

Definition humansize (nbytes : Z) : result string :=
  '(nbytes', i) ← humansize_loop (length suffixes - 1) (NInt nbytes) 0%nat;
  formatted ← format_num_2f nbytes';
  let size := rstrip "." (rstrip "0" formatted) in
  match suffixes !! i with
  | Some suffix => Ok (size +:+ "  " +:+ suffix)
  | None => Raise IndexError
  end.

(** ** The outside world

    The file system and the URL quoting of [urllib.parse] are not part
    of the program; the model takes them as given. Each of them can
    raise: [quote] on a string it cannot encode, [is_dir] and
    [iterdir] on an error of the file system. *)

Class World : Type := {
  quote : string -> result string;
  is_dir : Path -> result bool;
  iterdir : Path -> result (list Path)
}.

(** ** class NextcloudInfo *)

Module NextcloudInfo.

Record t : Type := mk { domain : string; user : string }.

Definition user_file_path (self : t) : Path :=
  Path.of_str ("/var/www/html/data/" +:+ user self +:+ "/files/").

Definition base_file_url (self : t) : string :=
  domain self +:+ "/apps/files/?dir=/".

Section links.
Context `{World}.

Definition _create_folder_link (self : t) (path : Path) : result string :=
  quoted ← quote (Path.str path);
  mret ("[" +:+ Path.str path +:+ "](" +:+ base_file_url self
          +:+ quoted +:+ ")").

Definition create_link (self : t) (path : Path) : result string :=
  path ← (if Path.is_relative_to path (user_file_path self)
          then Path.relative_to path (user_file_path self)
          else Ok path);
  dir ← is_dir path;
  if (dir : bool) then _create_folder_link self path
  else
    (parent_link ← _create_folder_link self (Path.parent path);
     mret (parent_link +:+ "/" +:+ Path.name path)).
End links.

End NextcloudInfo.

Abbreviation NextcloudInfo := NextcloudInfo.t.

(** ** sorted(l, key=...)

    Python's sort is stable; so is this insertion sort, and a stable
    sort has one result. *)

Section sorted.
Context {A : Type} (key : A -> nat).

Fixpoint insert_by (x : A) (l : list A) : list A :=
  match l with
  | [] => [x]
  | y :: l' =>
      if (key x <=? key y)%nat then x :: y :: l' else y :: insert_by x l'
  end.

Definition sorted (l : list A) : list A := foldr insert_by [] l.
End sorted.

(** ** class JDupesOutput *)

Module JDupesOutput.

Import MatchSet.

(** The provenance attributes ([version], [version_date],
    [command_line], [extension_flags]) are stored by [__init__] and
    never read again; the model leaves them out. *)
Record t : Type := mk {
  _nextcloud_info : NextcloudInfo;
  match_sets : gset MatchSet;
  _folder_cache : gmap Path (gset MatchSet)
}.

(** The attributes of the match sets of [json_data], in the order
    they are constructed. Every [MatchSet(...)] is a new object, so
    adding it to the set never meets an equal element. *)
Definition _get_matchsets (json_data : pyval) : result (list MatchSet.attrs) :=
  match_sets_json ← getitem json_data "matchSets";
  items ← iter match_sets_json;
  foldlM (fun res match_set =>
            m ← MatchSet.init match_set;
            mret (res ++ [m])%list)
         [] items.

(** One pass of the inner loop body of [_create_folder_cache]. *)
Definition cache_add (match_set : MatchSet)
    (res : gmap Path (gset MatchSet)) (folder : Path)
  : gmap Path (gset MatchSet) :=
  let res :=
    match res !! folder with
    | None => <[folder := ∅]> res
    | Some _ => res
    end in
  alter (fun s => {[match_set]} ∪ s) folder res.

Definition _create_folder_cache (match_sets : gset MatchSet)
  : gmap Path (gset MatchSet) :=
  foldl (fun res match_set =>
           foldl (cache_add match_set) res (directory_list match_set))
        ∅ (elements match_sets).

(** The part of [__init__] after the detector's output is parsed. *)
Definition init (nextcloud_info : NextcloudInfo) (match_sets : gset MatchSet) : t :=
  mk nextcloud_info match_sets (_create_folder_cache match_sets).

Definition total_size (self : t) : Z :=
  sum (map file_size (elements (match_sets self))).

Definition folders_with_duplicates (self : t) : gset Path :=
  foldl (fun res match_set =>
           foldl (fun res file_path => {[Path.parent file_path]} ∪ res)
                 res (file_list match_set))
        ∅ (elements (match_sets self)).

(** The body of the inner loop of [duplicates_in_folder]. *)
Definition entry_step (folder : Path) (match_set : MatchSet)
    (res : gset DuplicateInFolder) (file_path : Path)
  : result (gset DuplicateInFolder) :=
  if decide (Path.parent file_path = folder) then
    other_files ← set_remove file_path (list_to_set (file_list match_set));
    mret ({[DuplicateInFolder.mk file_path other_files (file_size match_set)]} ∪ res)
  else Ok res.

Definition duplicates_in_folder (self : t) (folder : Path)
  : result (gset DuplicateInFolder) :=
  match _folder_cache self !! folder with
  | None => Raise KeyError
  | Some cached =>
      foldlM (fun res match_set =>
                foldlM (entry_step folder match_set) res (file_list match_set))
             ∅ (elements cached)
  end.

(** The size rollup [to_markdown] prints for a folder, before it is
    formatted. *)
Definition duplicate_folder_size (self : t) (duplicate_folder : Path) : result Z :=
  entries ← duplicates_in_folder self duplicate_folder;
  mret (sum (map DuplicateInFolder.size (elements entries))).

Definition folder_entry : Type :=
  Path * gset DuplicateInFolder * list Path.

Section report.
Context `{World}.

(** The body of the first loop of [to_markdown]. *)
Definition parse_folder (self : t) (duplicate_folders : list folder_entry)
    (duplicate_folder : Path) : result (list folder_entry) :=
  all_files ← iterdir duplicate_folder;
  duplicates_in_folder ← duplicates_in_folder self duplicate_folder;
  let duplicate_files : gset Path :=
    foldl (fun res duplicate_match_set =>
             {[DuplicateInFolder.in_duplicate_folder duplicate_match_set]} ∪ res)
          ∅ (elements duplicates_in_folder) in
  let not_duplicate_files :=
    List.filter (fun x => bool_decide (x ∉ duplicate_files)) all_files in
  mret (duplicate_folders
          ++ [(duplicate_folder, duplicates_in_folder, not_duplicate_files)])%list.

Definition header (self : t) : result (list string) :=
  total ← humansize (total_size self);
  mret [ "# Duplikate von " +:+ NextcloudInfo.user (_nextcloud_info self);
         "Es gibt " +:+ pretty (size (match_sets self)) +:+ " Duplikate in "
           +:+ pretty (size (folders_with_duplicates self)) +:+ " Ordnern.  ";
         "Diese sind insgesamt " +:+ total +:+ " groß.";
         "## Alle Ordner mit Duplikaten" ].

Definition pure_duplicate_marker : string :=
  "Dieser Ordner enthält nur Duplikate  ".

(** The lines for one duplicated file. *)
Definition render_duplicate (self : t) (res : list string)
    (duplicate_match_set : DuplicateInFolder) : result (list string) :=
  let info := _nextcloud_info self in
  rel ← Path.relative_to
          (DuplicateInFolder.in_duplicate_folder duplicate_match_set)
          (NextcloudInfo.user_file_path info);
  let res := (res ++ ["- " +:+ Path.str rel +:+ "  "])%list in
  hs ← humansize (DuplicateInFolder.size duplicate_match_set);
  let res := (res ++ [tab +:+ "Größe: " +:+ hs +:+ "  "])%list in
  links ← mapM (NextcloudInfo.create_link info)
               (elements (DuplicateInFolder.other_paths duplicate_match_set));
  let duplicate_files_str :=
    tab +:+ "- " +:+ join ("  " +:+ newline +:+ tab +:+ "- ") links in
  let res := (res ++ [tab +:+ "Andere(r) Ordner:  "])%list in
  mret (res ++ [duplicate_files_str +:+ "  "])%list.

Definition render_not_duplicate (self : t) (res : list string)
    (not_duplicate_file : Path) : result (list string) :=
  rel ← Path.relative_to not_duplicate_file
          (NextcloudInfo.user_file_path (_nextcloud_info self));
  mret (res ++ ["- " +:+ Path.str rel])%list.

(** The body of the second loop of [to_markdown]. *)
Definition render_folder (self : t) (res : list string) (entry : folder_entry)
  : result (list string) :=
  let '(duplicate_folder, duplicates_in_folder, not_duplicate_files) := entry in
  folder_link ← NextcloudInfo.create_link (_nextcloud_info self) duplicate_folder;
  let res := (res ++ ["## Ordner mit Duplikaten: " +:+ folder_link])%list in
  rollup ← duplicate_folder_size self duplicate_folder;
  duplicate_folder_size ← humansize rollup;
  let res :=
    (res ++ ["Die Duplikate in diesem Ordner sind " +:+ duplicate_folder_size
               +:+ " groß  "])%list in
  let res :=
    if (length not_duplicate_files =? 0)%nat
    then (res ++ [pure_duplicate_marker])%list else res in
  let res := (res ++ ["### Duplizierte Dateien:"])%list in
  res ← foldlM (render_duplicate self) res (elements duplicates_in_folder);
  if (0 <? length not_duplicate_files)%nat then
    let res := (res ++ ["### Nicht duplizierte Dateien"])%list in
    foldlM (render_not_duplicate self) res not_duplicate_files
  else Ok res.

(** The sorted folder entries of [to_markdown]. *)
Definition sorted_folders (self : t) : result (list folder_entry) :=
  duplicate_folders ←
    foldlM (parse_folder self) [] (elements (folders_with_duplicates self));
  mret (sorted (fun x => length (snd x)) duplicate_folders).

(** The lines of the report, before they are joined. *)
Definition report_lines (self : t) : result (list string) :=
  duplicate_folders ← sorted_folders self;
  res ← header self;
  foldlM (render_folder self) res duplicate_folders.

Definition to_markdown (self : t) : result string :=
  res ← report_lines self;
  mret (join newline res).
End report.

End JDupesOutput.

Abbreviation JDupesOutput := JDupesOutput.t.

(** ** Vocabulary of the specification

    A group's value is its member set and its size; the entries of a
    folder are counted against the values of the groups indexed for
    it. *)

Definition entry_of (match_set : MatchSet) (file_path : Path) : DuplicateInFolder :=
  DuplicateInFolder.mk file_path
    (list_to_set (MatchSet.file_list match_set) ∖ {[file_path]})
    (MatchSet.file_size match_set).

Definition members (match_set : MatchSet) : gset Path :=
  list_to_set (MatchSet.file_list match_set).

Definition group_value (match_set : MatchSet) : gset Path * Z :=
  (members match_set, MatchSet.file_size match_set).

Definition group_values (groups : gset MatchSet) : gset (gset Path * Z) :=
  set_map group_value groups.

(** The members of a group that lie directly in [folder]. *)
Definition members_in (folder : Path) (v : gset Path) : gset Path :=
  filter (fun file_path => Path.parent file_path = folder) v.

Definition entries_of_group (folder : Path) (v : gset Path * Z)
  : gset DuplicateInFolder :=
  set_map (fun file_path => DuplicateInFolder.mk file_path (v.1 ∖ {[file_path]}) v.2)
          (members_in folder v.1).

(** The step of [duplicates_in_folder] once [remove] is known not to
    raise. *)
Definition pure_step (folder : Path) (match_set : MatchSet)
    (res : gset DuplicateInFolder) (file_path : Path) : gset DuplicateInFolder :=
  if decide (Path.parent file_path = folder)
  then {[entry_of match_set file_path]} ∪ res else res.

(** The sum of the sizes of a set of entries. *)
Definition ssum (X : gset DuplicateInFolder) : Z :=
  sum (map DuplicateInFolder.size (elements X)).

(** ** The end-to-end example of the specification

    Group A has size 100 and the files /d1/a, /d1/b, /d2/a; group B
    has size 50 and the files /d2/c, /d2/d. *)

Module Example.

Definition d1 : Path := Path.of_str "/d1".
Definition d2 : Path := Path.of_str "/d2".
Definition d3 : Path := Path.of_str "/d3".

Definition group_A : MatchSet :=
  MatchSet.mk 1 100 [Path.of_str "/d1/a"; Path.of_str "/d1/b"; Path.of_str "/d2/a"].

Definition group_B : MatchSet :=
  MatchSet.mk 2 50 [Path.of_str "/d2/c"; Path.of_str "/d2/d"].

Definition groups : gset MatchSet := {[group_A; group_B]}.

Definition info : NextcloudInfo := NextcloudInfo.mk "https://cloud" "u".

Definition output : JDupesOutput := JDupesOutput.init info groups.

(** The detector's output the two groups are read from. *)
Definition json : pyval :=
  PDict
    [("matchSets",
      PList
        [PDict [("fileSize", PInt 100);
                ("fileList",
                 PList [PDict [("filePath", PStr "/d1/a")];
                        PDict [("filePath", PStr "/d1/b")];
                        PDict [("filePath", PStr "/d2/a")]])];
         PDict [("fileSize", PInt 50);
                ("fileList",
                 PList [PDict [("filePath", PStr "/d2/c")];
                        PDict [("filePath", PStr "/d2/d")]])]])].

End Example.

(** What the first loop of [to_markdown] records for a folder: its
    entries and the listed files that are not the file of an entry. *)
Definition folder_parsed `{World} (self : JDupesOutput)
    (entry : JDupesOutput.folder_entry) : Prop :=
  exists all_files,
    iterdir entry.1.1 = Ok all_files /\
    JDupesOutput.duplicates_in_folder self entry.1.1 = Ok entry.1.2 /\
    entry.2 = List.filter
                (fun x => bool_decide
                   (x ∉ (set_map DuplicateInFolder.in_duplicate_folder entry.1.2
                          : gset Path)))
                all_files.

(** Ascending order of the number of non-duplicate files. *)
Definition fewer_non_duplicates (e1 e2 : JDupesOutput.folder_entry) : Prop :=
  (length e1.2 <= length e2.2)%nat.

Definition is_Ok_b {A} (m : result A) : bool :=
  match m with
  | Ok _ => true
  | Raise _ => false
  end.

(** ** A report on a small file tree

    The user's files hold one duplicated content, twice in [p] and once
    in [q]; [q] also holds a file that has no copy. *)

Module ReportExample.

Definition info : NextcloudInfo := NextcloudInfo.mk "https://cloud" "u".

Definition file (rel : string) : Path :=
  Path.of_str ("/var/www/html/data/u/files/" +:+ rel).

Definition group : MatchSet :=
  MatchSet.mk 1 2048 [file "p/a"; file "p/b"; file "q/a"].

Definition output : JDupesOutput := JDupesOutput.init info {[group]}.

Definition world : World := {|
  quote := fun s => Ok s;
  is_dir := fun p =>
    Ok (bool_decide (p = Path.of_str "p") || bool_decide (p = Path.of_str "q"));
  iterdir := fun folder =>
    if decide (folder = file "p") then Ok [file "p/a"; file "p/b"]
    else if decide (folder = file "q") then Ok [file "q/a"; file "q/c"]
    else Raise OSError
|}.

End ReportExample.

(** ** The formatter in exact arithmetic

    The value after [i] divisions is the fraction [n / 1024 ^ i]; it is
    at least 1024 when [1024 ^ (i + 1) <= n]. *)

Fixpoint exact_unit (remaining : nat) (n : Z) (i : nat) : nat :=
  match remaining with
  | O => i
  | S remaining' =>
      if (1024 ^ Z.of_nat (i + 1) <=? n)%Z
      then exact_unit remaining' n (i + 1)%nat else i
  end.

Definition humansize_exact (n : Z) : string :=
  let i := exact_unit (length suffixes - 1) n 0 in
  rstrip "." (rstrip "0"
    (fixed2 false (round_half_even (100 * n) (1024 ^ Z.of_nat i))))
    +:+ "  " +:+ nth i suffixes "".

(** The integer a finite float of integral value stands for,
    [int(x)]. *)
Definition float_to_Z (x : spec_float) : Z :=
  match x with
  | S754_finite s m e =>
      let v := if (0 <=? e)%Z then (Z.pos m * 2 ^ e)%Z
               else (Z.pos m / 2 ^ (- e))%Z in
      if s then (- v)%Z else v
  | _ => 0%Z
  end.

(** What [k] right shifts of [p] leave in a shift record: the
    quotient, the bit shifted out last, and whether any bit shifted
    out before it was set. *)
Definition shifted (p k : Z) (mrs : shr_record) : Prop :=
  (0 <= shr_m mrs)%Z /\ (k = 0%Z -> shr_r mrs = false) /\
  exists t, (0 <= t)%Z /\ (t = 0%Z \/ (t < 2 ^ (k - 1))%Z) /\
            (shr_s mrs = true <-> (0 < t)%Z) /\
            p = (shr_m mrs * 2 ^ k + (if shr_r mrs then 2 ^ (k - 1) else 0) + t)%Z.

(** The 53-bit mantissa and the exponent of [float(p)] for an integer
    of at most 53 bits. *)
Definition mantissa (p : positive) : positive :=
  match (53 - Z.pos (digits2_pos p))%Z with
  | Z.pos k => Pos.iter xO p k
  | _ => p
  end.

Definition exponent (p : positive) : Z := (Z.pos (digits2_pos p) - 53)%Z.

(** The number of divisions the loop performs on a float with a 53-bit
    mantissa and exponent [e]: it is at least 1024 when [-42 <= e]. *)
Fixpoint float_steps (remaining : nat) (e : Z) : nat :=
  match remaining with
  | O => O
  | S remaining' =>
      if (-42 <=? e)%Z then S (float_steps remaining' (e - 10)%Z) else O
  end.

(** ** The schema of the specification

    A raw record is malformed when its size is missing or not a
    non-negative integer, or its file list is missing or empty. *)

Definition spec_malformed (json_data : pyval) : bool :=
  match getitem json_data "fileSize" with
  | Ok (PInt z) => (z <? 0)%Z
  | _ => true
  end
  || match getitem json_data "fileList" with
     | Ok (PList (_ :: _)) => false
     | _ => true
     end.

Definition negative_size_record : pyval :=
  PDict [("fileSize", PInt (-1)); ("fileList", PList [])].

(** The JSON of a file list entry. *)
Definition file_entry (file_path : string) : pyval :=
  PDict [("filePath", PStr file_path)].

(** ** The object store

    [duplicates_in_folder] works on shared mutable objects: the file
    list of every match set, the folder cache and the sets it holds.
    This second model of the method keeps them in a heap and performs
    every allocation, read and in-place update of the Python code, so
    that what a call changes can be stated. *)

Module Heap.

Definition loc : Type := positive.

(** A match set object: its [_file_list] attribute refers to a list
    object. *)
Record match_set : Type :=
  mk_match_set { id : positive; file_size : Z; file_list : loc }.

#[global] Instance match_set_eq_dec : EqDecision match_set.
Proof. solve_decision. Defined.

#[global] Instance match_set_countable : Countable match_set.
Proof.
  apply (inj_countable' (fun m => (id m, file_size m, file_list m))
                        (fun x => mk_match_set (fst (fst x)) (snd (fst x)) (snd x))).
  by intros [].
Defined.

Inductive obj : Type :=
  | ListObj (l : list Path)
  | SetObj (s : gset Path)
  | EntriesObj (s : gset DuplicateInFolder)
  | MatchSetsObj (s : gset match_set)
  | DictObj (d : gmap Path loc).

(** Computations that read and update the heap and may raise. *)
Definition M (A : Type) : Type := gmap loc obj -> result A * gmap loc obj.

Definition ret {A} (a : A) : M A := fun h => (Ok a, h).

Definition raise {A} (e : exn) : M A := fun h => (Raise e, h).

Definition bind {A B} (m : M A) (k : A -> M B) : M B := fun h =>
  match m h with
  | (Ok a, h') => k a h'
  | (Raise e, h') => (Raise e, h')
  end.

#[global] Instance M_ret : MRet M := @ret.
#[global] Instance M_bind : MBind M := fun A B k m => bind m k.

Definition alloc (o : obj) : M loc := fun h =>
  let l := fresh (dom h) in (Ok l, <[l := o]> h).

Definition store (l : loc) (o : obj) : M unit := fun h => (Ok (), <[l := o]> h).

Definition load_list (l : loc) : M (list Path) := fun h =>
  match h !! l with
  | Some (ListObj xs) => (Ok xs, h)
  | _ => (Raise TypeError, h)
  end.

Definition load_set (l : loc) : M (gset Path) := fun h =>
  match h !! l with
  | Some (SetObj s) => (Ok s, h)
  | _ => (Raise TypeError, h)
  end.

Definition load_entries (l : loc) : M (gset DuplicateInFolder) := fun h =>
  match h !! l with
  | Some (EntriesObj s) => (Ok s, h)
  | _ => (Raise TypeError, h)
  end.

Definition load_match_sets (l : loc) : M (gset match_set) := fun h =>
  match h !! l with
  | Some (MatchSetsObj s) => (Ok s, h)
  | _ => (Raise TypeError, h)
  end.

Definition load_dict (l : loc) : M (gmap Path loc) := fun h =>
  match h !! l with
  | Some (DictObj d) => (Ok d, h)
  | _ => (Raise TypeError, h)
  end.

(** [l.copy()] *)
Definition list_copy (l : loc) : M loc :=
  xs ← load_list l; alloc (ListObj xs).

(** [set(l)] *)
Definition set_of (l : loc) : M loc :=
  xs ← load_list l; alloc (SetObj (list_to_set xs)).

(** [s.remove(x)] *)
Definition set_remove (s : loc) (x : Path) : M unit :=
  X ← load_set s;
  if decide (x ∈ X) then store s (SetObj (X ∖ {[x]})) else raise KeyError.

(** [frozenset(s)]: an immutable value *)
Definition frozenset (s : loc) : M (gset Path) := load_set s.

(** [r.add(e)] *)
Definition entries_add (r : loc) (e : DuplicateInFolder) : M unit :=
  E ← load_entries r; store r (EntriesObj ({[e]} ∪ E)).

(** [d[k]] *)
Definition dict_getitem (d : loc) (k : Path) : M loc :=
  D ← load_dict d;
  match D !! k with
  | Some l => ret l
  | None => raise KeyError
  end.

Fixpoint for_each {A} (l : list A) (body : A -> M unit) : M unit :=
  match l with
  | [] => ret ()
  | x :: l' => _ ← body x; for_each l' body
  end.

(** The body of the inner loop. *)
Definition add_entry (result : loc) (match_set : match_set) (folder : Path)
    (file_path : Path) : M unit :=
  if decide (Path.parent file_path = folder) then
    copy ← list_copy (file_list match_set);
    other_files ← set_of copy;
    _ ← set_remove other_files file_path;
    other_files_frozen ← frozenset other_files;
    entries_add result
      (DuplicateInFolder.mk file_path other_files_frozen (file_size match_set))
  else ret ().

(** [duplicates_in_folder]; [_folder_cache] is the dict object of
    [self], the result is the new set object. *)
Definition duplicates_in_folder (_folder_cache : loc) (folder : Path) : M loc :=
  result ← alloc (EntriesObj ∅);
  cached ← dict_getitem _folder_cache folder;
  match_sets ← load_match_sets cached;
  _ ← for_each (elements match_sets) (fun match_set =>
         files ← load_list (file_list match_set);
         for_each files (add_entry result match_set folder));
  ret result.

(** What a call returns: the contents of the set it hands back, or
    the exception. *)
Definition returned (x : result loc * gmap loc obj)
  : result (gset DuplicateInFolder) :=
  match x with
  | (Ok l, h) =>
      match h !! l with
      | Some (EntriesObj E) => Ok E
      | _ => Raise TypeError
      end
  | (Raise e, _) => Raise e
  end.

(** A store is well formed when the folder cache is a dict of sets
    of match sets whose file lists are list objects. *)
Definition wf (h : gmap loc obj) (_folder_cache : loc) : Prop :=
  exists D, h !! _folder_cache = Some (DictObj D) /\
    forall folder l, D !! folder = Some l ->
      exists ms, h !! l = Some (MatchSetsObj ms) /\
        forall m, m ∈ ms -> exists xs, h !! file_list m = Some (ListObj xs).

(** The match set value an object stands for. *)
Definition view (h : gmap loc obj) (m : match_set) : MatchSet :=
  MatchSet.mk (id m) (file_size m)
    match h !! file_list m with
    | Some (ListObj xs) => xs
    | _ => []
    end.

(** The folder cache of the value-level model that a store holds. *)
Definition pure_cache (h : gmap loc obj) (_folder_cache : loc)
  : gmap Path (gset MatchSet) :=
  match h !! _folder_cache with
  | Some (DictObj D) =>
      (fun l => match h !! l with
                | Some (MatchSetsObj ms) => set_map (view h) ms
                | _ => ∅
                end) <$> D
  | _ => ∅
  end.

(** A store with one match set of two files in the folder [/d]. *)
Definition example_match_set : match_set := mk_match_set 1%positive 7 1%positive.

Definition example_heap : gmap loc obj :=
  <[1%positive := ListObj [Path.of_str "/d/a"; Path.of_str "/d/b"]]>
  (<[2%positive := MatchSetsObj {[example_match_set]}]>
  (<[3%positive := DictObj {[Path.of_str "/d" := 2%positive]}]> ∅)).

End Heap.

(** The entries a call is to return, read off the store. *)
Definition heap_expected (h : gmap Heap.loc Heap.obj) (_folder_cache : Heap.loc)
    (folder : Path) : result (gset DuplicateInFolder) :=
  match h !! _folder_cache with
  | Some (Heap.DictObj D) =>
      match D !! folder with
      | Some l =>
          match h !! l with
          | Some (Heap.MatchSetsObj ms) =>
              Ok (foldl (fun res m =>
                           foldl (pure_step folder m) res (MatchSet.file_list m))
                        ∅ (Heap.view h <$> elements ms))
          | _ => Raise TypeError
          end
      | None => Raise KeyError
      end
  | _ => Raise TypeError
  end.

(** ** Vocabulary of the proofs *)

(** Ascending order of a key. *)
Definition key_le {A : Type} (key : A -> nat) (x y : A) : Prop :=
  (key x <= key y)%nat.

(** A step of a loop that only appends lines to its accumulator. *)
Definition appends {A} (f : list string -> A -> result (list string)) : Prop :=
  forall a b x, f (a ++ b)%list x = (fun r => a ++ r)%list <$> f b x.

(** A line of the report other than the pure-duplicate marker. *)
Definition plain_line (line : string) : Prop :=
  line <> JDupesOutput.pure_duplicate_marker.

(** ** Vocabulary of the further properties *)

(** [Path(str_path["filePath"])], the value the loop of
    [_get_file_list] appends for one item. *)
Definition path_of_entry (item : pyval) : result Path :=
  file_path ← getitem item "filePath"; Path_of file_path.

(** No character of [s] is [c]. *)
Fixpoint avoids (c : ascii) (s : string) : Prop :=
  match s with
  | EmptyString => True
  | String a s' => a <> c /\ avoids c s'
  end.

(** [humansize] returns [s]. *)
Definition result_str_eqb (r : result string) (s : string) : bool :=
  match r with
  | Ok x => String.eqb x s
  | Raise _ => false
  end.

(** [k] units of size [1024 ^ i] are printed as [k] and the [i]-th
    suffix. *)
Definition whole_unit_ok (i : nat) (k : Z) : bool :=
  result_str_eqb (humansize (k * 1024 ^ Z.of_nat i))
                 (pretty k +:+ "  " +:+ nth i suffixes "").

(** A world whose file system cannot be reached. *)
Definition offline_world : World := {|
  quote := fun s => Ok s;
  is_dir := fun _ => Raise OSError;
  iterdir := fun _ => Raise OSError
|}.



(** * Proofs *)

Import MatchSet JDupesOutput.

(** ** Loops and the folder cache *)

Lemma foldlM_pure {A B} (f : B -> A -> result B) (g : B -> A -> B) l b :
  (forall b x, x ∈ l -> f b x = Ok (g b x)) ->
  foldlM f b l = Ok (foldl g b l).
Proof.
  revert b. induction l as [|x l IH]; intros b Hf; simpl; [done|].
  rewrite Hf by left. simpl. apply IH. intros b' y Hy. apply Hf. by right.
Qed.

Lemma elem_of_foldl_add {A} `{Countable B} (h : A -> B) l (b : gset B) x :
  x ∈ foldl (fun res a => {[h a]} ∪ res) b l <-> x ∈ b \/ exists a, a ∈ l /\ x = h a.
Proof.
  revert b. induction l as [|a l IH]; intros b; simpl.
  - split; [by left|]. intros [?|(a & Ha & _)]; [done|]. by apply elem_of_nil in Ha.
  - rewrite IH. set_solver.
Qed.

Lemma elem_of_directory_list ms f :
  f ∈ directory_list ms <-> exists fp, fp ∈ file_list ms /\ Path.parent fp = f.
Proof.
  unfold directory_list. change (map Path.parent (file_list ms)) with (Path.parent <$> file_list ms).
  rewrite list_elem_of_fmap. naive_solver.
Qed.

Lemma lookup_cache_add ms (res : gmap Path (gset MatchSet)) d f :
  cache_add ms res d !! f =
    if decide (d = f) then Some ({[ms]} ∪ default ∅ (res !! d)) else res !! f.
Proof.
  unfold cache_add. case_decide as Hd.
  - subst f. destruct (res !! d) as [G|] eqn:HG.
    + by rewrite lookup_alter_eq, HG.
    + by rewrite lookup_alter_eq, lookup_insert_eq.
  - rewrite lookup_alter_ne by done.
    destruct (res !! d); [done|]. by rewrite lookup_insert_ne.
Qed.

Lemma lookup_cache_inner ms dirs (res : gmap Path (gset MatchSet)) f :
  foldl (cache_add ms) res dirs !! f =
    if decide (f ∈ dirs) then Some ({[ms]} ∪ default ∅ (res !! f)) else res !! f.
Proof.
  revert res. induction dirs as [|d dirs IH]; intros res; cbn [foldl].
  - rewrite decide_False; [done|]. apply not_elem_of_nil.
  - rewrite IH, lookup_cache_add.
    destruct (decide (f ∈ dirs)) as [Hin|Hin], (decide (d = f)) as [->|Hd]; simpl.
    + rewrite decide_True by (by right). f_equal. set_solver.
    + rewrite decide_True by (by right). done.
    + rewrite decide_True by (by left). done.
    + rewrite decide_False; [done|]. by intros [?|?]%elem_of_cons.
Qed.

Lemma lookup_cache_outer l (res : gmap Path (gset MatchSet)) f :
  let R := foldl (fun res ms => foldl (cache_add ms) res (directory_list ms)) res l in
  (forall ms, ms ∈ default ∅ (R !! f) <->
     ms ∈ default ∅ (res !! f) \/ (ms ∈ l /\ f ∈ directory_list ms)) /\
  (is_Some (R !! f) <->
     is_Some (res !! f) \/ exists ms, ms ∈ l /\ f ∈ directory_list ms).
Proof.
  revert res. induction l as [|m l IH]; intros res; simpl.
  - split; [intros ms|]; set_solver.
  - destruct (IH (foldl (cache_add m) res (directory_list m))) as [IH1 IH2].
    split.
    + intros ms. rewrite IH1, lookup_cache_inner.
      case_decide; simpl; set_solver.
    + rewrite IH2, lookup_cache_inner.
      case_decide; simpl; split.
      * intros [_|(ms & ? & ?)]; right; [exists m|exists ms]; set_solver.
      * intros _. left. eauto.
      * intros [?|(ms & ? & ?)]; [by left|]. right. exists ms. set_solver.
      * intros [?|(ms & [->|?]%elem_of_cons & ?)]; [by left|done|]. right. eauto.
Qed.

Lemma folder_cache_lookup (S : gset MatchSet) f G :
  _create_folder_cache S !! f = Some G ->
  forall ms, ms ∈ G <-> ms ∈ S /\ f ∈ directory_list ms.
Proof.
  intros HG ms. unfold _create_folder_cache in HG.
  destruct (lookup_cache_outer (elements S) ∅ f) as [H1 _]. simpl in H1.
  specialize (H1 ms). rewrite HG in H1. simpl in H1. rewrite H1.
  rewrite lookup_empty. simpl. rewrite elem_of_elements. set_solver.
Qed.

Lemma folder_cache_is_Some (S : gset MatchSet) f :
  is_Some (_create_folder_cache S !! f) <->
  exists ms, ms ∈ S /\ f ∈ directory_list ms.
Proof.
  unfold _create_folder_cache.
  destruct (lookup_cache_outer (elements S) ∅ f) as [_ H2]. simpl in H2.
  rewrite H2, lookup_empty. setoid_rewrite elem_of_elements.
  split; [intros [[? ?]|?]; done|by right].
Qed.

Lemma elem_of_folders_with_duplicates (self : JDupesOutput) f :
  f ∈ folders_with_duplicates self <->
  exists ms, ms ∈ match_sets self /\ f ∈ directory_list ms.
Proof.
  unfold folders_with_duplicates.
  assert (forall l (b : gset Path),
    f ∈ foldl (fun res match_set =>
                 foldl (fun res file_path => {[Path.parent file_path]} ∪ res)
                       res (file_list match_set)) b l <->
    f ∈ b \/ exists ms, ms ∈ l /\ f ∈ directory_list ms) as Hgen.
  { induction l as [|m l IH]; intros b; simpl.
    - split; [by left|]. intros [?|(ms & Hms & _)]; [done|]. by apply elem_of_nil in Hms.
    - rewrite IH, elem_of_foldl_add. setoid_rewrite elem_of_directory_list.
      split.
      + intros [[?|(a & ? & ->)]|(ms & ? & ?)]; [by left| |].
        * right. exists m. split; [left|]; eauto.
        * right. exists ms. split; [by right|done].
      + intros [?|(ms & [->|?]%elem_of_cons & fp & ? & ?)]; [by left; left| |].
        * left. right. eauto.
        * right. exists ms. eauto. }
  rewrite Hgen. setoid_rewrite elem_of_elements. set_solver.
Qed.

(** ** The entries of a folder *)

Lemma entry_step_ok folder ms res fp :
  fp ∈ file_list ms ->
  entry_step folder ms res fp =
    Ok (if decide (Path.parent fp = folder) then {[entry_of ms fp]} ∪ res else res).
Proof.
  intros Hin. unfold entry_step, set_remove.
  case_decide; [|done].
  rewrite decide_True by (by apply elem_of_list_to_set). done.
Qed.


Lemma elem_of_pure_inner folder ms l (res : gset DuplicateInFolder) e :
  e ∈ foldl (pure_step folder ms) res l <->
  e ∈ res \/ exists fp, fp ∈ l /\ Path.parent fp = folder /\ e = entry_of ms fp.
Proof.
  revert res. induction l as [|x l IH]; intros res; cbn [foldl].
  - split; [by left|]. intros [?|(fp & Hfp & _)]; [done|]. by apply elem_of_nil in Hfp.
  - rewrite IH. unfold pure_step. case_decide as Hx.
    + split.
      * intros [[->%elem_of_singleton|?]%elem_of_union|(fp & ? & ? & ?)].
        -- right. exists x. split; [left|done].
        -- by left.
        -- right. exists fp. split; [by right|done].
      * intros [?|(fp & [->|?]%elem_of_cons & ? & ->)].
        -- left. set_solver.
        -- left. set_solver.
        -- right. eauto.
    + split.
      * intros [?|(fp & ? & ? & ?)]; [by left|]. right. exists fp. split; [by right|done].
      * intros [?|(fp & [->|?]%elem_of_cons & ? & ->)]; [by left|done|]. right. eauto.
Qed.

Lemma elem_of_pure_outer folder l (res : gset DuplicateInFolder) e :
  e ∈ foldl (fun res ms => foldl (pure_step folder ms) res (file_list ms)) res l <->
  e ∈ res \/ exists ms fp, ms ∈ l /\ fp ∈ file_list ms /\
                           Path.parent fp = folder /\ e = entry_of ms fp.
Proof.
  revert res. induction l as [|m l IH]; intros res; cbn [foldl].
  - split; [by left|]. intros [?|(ms & fp & Hms & _)]; [done|]. by apply elem_of_nil in Hms.
  - rewrite IH, elem_of_pure_inner. split.
    + intros [[?|(fp & ? & ? & ?)]|(ms & fp & ? & ?)]; [by left| |].
      * right. exists m, fp. split; [left|done].
      * right. exists ms, fp. split; [by right|done].
    + intros [?|(ms & fp & [->|?]%elem_of_cons & ? & ? & ?)]; [by left; left| |].
      * left. right. eauto.
      * right. exists ms, fp. eauto.
Qed.

Lemma duplicates_in_folder_pure (self : JDupesOutput) folder cached :
  _folder_cache self !! folder = Some cached ->
  duplicates_in_folder self folder =
    Ok (foldl (fun res ms => foldl (pure_step folder ms) res (file_list ms))
              ∅ (elements cached)).
Proof.
  intros Hc. unfold duplicates_in_folder. rewrite Hc.
  apply foldlM_pure. intros b ms _.
  apply foldlM_pure. intros b' fp Hfp. by apply entry_step_ok.
Qed.

Lemma duplicates_in_folder_elem_of (self : JDupesOutput) folder cached :
  _folder_cache self !! folder = Some cached ->
  exists entries, duplicates_in_folder self folder = Ok entries /\
    forall e, e ∈ entries <->
      exists ms fp, ms ∈ cached /\ fp ∈ file_list ms /\
                    Path.parent fp = folder /\ e = entry_of ms fp.
Proof.
  intros Hc. eexists. split; [by apply duplicates_in_folder_pure|].
  intros e. rewrite elem_of_pure_outer. setoid_rewrite elem_of_elements. set_solver.
Qed.

(** Sums *)
Lemma sum_acc l a : foldl Z.add a l = a + sum l.
Proof.
  unfold sum. revert a. induction l as [|x l IH]; intros a; simpl; [lia|].
  rewrite IH, (IH (0 + x)). lia.
Qed.

Lemma sum_cons x l : sum (x :: l) = x + sum l.
Proof. unfold sum at 1. simpl. apply sum_acc. Qed.

Lemma sum_app l k : sum (l ++ k) = sum l + sum k.
Proof.
  induction l as [|x l IH]; [done|].
  change ((x :: l) ++ k)%list with (x :: (l ++ k))%list. rewrite !sum_cons, IH. lia.
Qed.

Lemma sum_Permutation l k : l ≡ₚ k -> sum l = sum k.
Proof.
  induction 1; rewrite ?sum_cons; lia.
Qed.

Lemma sum_const {A} (l : list A) (c : Z) :
  sum (map (fun _ => c) l) = Z.of_nat (length l) * c.
Proof.
  induction l as [|x l IH]; [done|].
  cbn [map length]. rewrite sum_cons, IH. lia.
Qed.

Lemma elements_set_map_inj `{Countable A} `{Countable B} (f : A -> B) (X : gset A) :
  (forall x y, x ∈ X -> y ∈ X -> f x = f y -> x = y) ->
  elements (set_map f X : gset B) ≡ₚ f <$> elements X.
Proof.
  intros Hinj. apply NoDup_Permutation.
  - apply NoDup_elements.
  - apply NoDup_fmap_2_strong; [|apply NoDup_elements].
    intros x y Hx%elem_of_elements Hy%elem_of_elements. by apply Hinj.
  - intros y. rewrite elem_of_elements, elem_of_map, list_elem_of_fmap.
    setoid_rewrite elem_of_elements. done.
Qed.

Lemma elem_of_entries_of_group folder v e :
  e ∈ entries_of_group folder v <->
  exists fp, fp ∈ v.1 /\ Path.parent fp = folder /\
             e = DuplicateInFolder.mk fp (v.1 ∖ {[fp]}) v.2.
Proof.
  unfold entries_of_group, members_in. rewrite elem_of_map.
  setoid_rewrite elem_of_filter. naive_solver.
Qed.

Lemma entries_of_group_disjoint folder v v' :
  v <> v' -> entries_of_group folder v ## entries_of_group folder v'.
Proof.
  intros Hne e (fp & Hfp & _ & ->)%elem_of_entries_of_group
               (fp' & Hfp' & _ & Heq)%elem_of_entries_of_group.
  injection Heq as -> Hother Hsize. apply Hne.
  destruct v as [X z], v' as [X' z']; simpl in *. f_equal; [|done].
  apply set_eq. intros x. destruct (decide (x = fp')) as [->|Hx]; [done|].
  assert (x ∈ X ∖ {[fp']} <-> x ∈ X' ∖ {[fp']}) as Hiff by (by rewrite Hother).
  set_solver.
Qed.

Lemma entries_as_union folder (cached : gset MatchSet) (entries : gset DuplicateInFolder) :
  (forall e, e ∈ entries <->
     exists ms fp, ms ∈ cached /\ fp ∈ file_list ms /\
                   Path.parent fp = folder /\ e = entry_of ms fp) ->
  entries = ⋃ (entries_of_group folder <$> elements (group_values cached)).
Proof.
  intros He. apply set_eq. intros e. rewrite He, elem_of_union_list. split.
  - intros (ms & fp & Hms & Hfp & Hpar & ->).
    exists (entries_of_group folder (group_value ms)). split.
    + apply list_elem_of_fmap. exists (group_value ms). split; [done|].
      apply elem_of_elements, elem_of_map. eauto.
    + apply elem_of_entries_of_group. exists fp. split_and!; [|done|done].
      by apply elem_of_list_to_set.
  - intros (X & (v & -> & Hv)%list_elem_of_fmap & (fp & Hfp & Hpar & ->)%elem_of_entries_of_group).
    apply elem_of_elements, elem_of_map in Hv as (ms & -> & Hms).
    exists ms, fp. split_and!; [done| |done|done].
    by apply elem_of_list_to_set in Hfp.
Qed.


Lemma ssum_union X Y : X ## Y -> ssum (X ∪ Y) = ssum X + ssum Y.
Proof.
  intros Hdisj. unfold ssum.
  rewrite (sum_Permutation _ (map DuplicateInFolder.size (elements X ++ elements Y))).
  - by rewrite map_app, sum_app.
  - apply (fmap_Permutation DuplicateInFolder.size). by apply elements_disj_union.
Qed.

Section union_list.
Context {V : Type} (E : V -> gset DuplicateInFolder).

Lemma disjoint_union_list v l :
  (forall v', v' ∈ l -> E v ## E v') -> E v ## ⋃ (E <$> l).
Proof.
  intros Hd e He (X & (v' & -> & Hv')%list_elem_of_fmap & HX)%elem_of_union_list.
  by apply (Hd v' Hv' e).
Qed.

Lemma size_union_list_disjoint l :
  NoDup l -> (forall v v', v ∈ l -> v' ∈ l -> v <> v' -> E v ## E v') ->
  size (⋃ (E <$> l)) = sum_list ((fun v => size (E v)) <$> l).
Proof.
  induction 1 as [|v l Hv Hnd IH]; intros Hd; [done|].
  cbn [fmap list_fmap union_list foldr sum_list sum_list_with].
  change (foldr union ∅ (list_fmap V _ E l)) with (⋃ (E <$> l)).
  rewrite size_union.
  - f_equal. apply IH. intros; apply Hd; by try right.
  - apply disjoint_union_list. intros v' Hv'. apply Hd; [left|by right|].
    by intros ->.
Qed.

Lemma ssum_union_list_disjoint l :
  NoDup l -> (forall v v', v ∈ l -> v' ∈ l -> v <> v' -> E v ## E v') ->
  ssum (⋃ (E <$> l)) = sum ((fun v => ssum (E v)) <$> l).
Proof.
  induction 1 as [|v l Hv Hnd IH]; intros Hd; [done|].
  cbn [fmap list_fmap union_list foldr].
  change (foldr union ∅ (list_fmap V _ E l)) with (⋃ (E <$> l)).
  rewrite sum_cons, ssum_union.
  - f_equal. apply IH. intros; apply Hd; by try right.
  - apply disjoint_union_list. intros v' Hv'. apply Hd; [left|by right|].
    by intros ->.
Qed.
End union_list.

Lemma entries_of_group_elements folder v :
  elements (entries_of_group folder v) ≡ₚ
    (fun fp => DuplicateInFolder.mk fp (v.1 ∖ {[fp]}) v.2)
      <$> elements (members_in folder v.1).
Proof.
  apply elements_set_map_inj. intros x y _ _ Heq. by injection Heq.
Qed.

Lemma size_entries_of_group folder v :
  size (entries_of_group folder v) = size (members_in folder v.1).
Proof.
  unfold size at 1, set_size. simpl.
  rewrite (entries_of_group_elements folder v), length_fmap. done.
Qed.

Lemma ssum_entries_of_group folder v :
  ssum (entries_of_group folder v) = Z.of_nat (size (members_in folder v.1)) * v.2.
Proof.
  unfold ssum.
  rewrite (sum_Permutation _ (map DuplicateInFolder.size
     ((fun fp => DuplicateInFolder.mk fp (v.1 ∖ {[fp]}) v.2)
        <$> elements (members_in folder v.1)))).
  - rewrite map_map. simpl. by rewrite sum_const.
  - apply (fmap_Permutation DuplicateInFolder.size), entries_of_group_elements.
Qed.

Lemma entries_size folder cached entries :
  entries = ⋃ (entries_of_group folder <$> elements (group_values cached)) ->
  size entries =
    sum_list ((fun v => size (members_in folder v.1)) <$> elements (group_values cached)).
Proof.
  intros ->. rewrite size_union_list_disjoint.
  - f_equal. apply list_fmap_ext. intros _ v _. apply size_entries_of_group.
  - apply NoDup_elements.
  - intros v v' _ _. apply entries_of_group_disjoint.
Qed.

Lemma entries_ssum folder cached entries :
  entries = ⋃ (entries_of_group folder <$> elements (group_values cached)) ->
  ssum entries =
    sum ((fun v => Z.of_nat (size (members_in folder v.1)) * v.2)
           <$> elements (group_values cached)).
Proof.
  intros ->. rewrite ssum_union_list_disjoint.
  - f_equal. apply list_fmap_ext. intros _ v _. apply ssum_entries_of_group.
  - apply NoDup_elements.
  - intros v v' _ _. apply entries_of_group_disjoint.
Qed.

(** C1. For a folder present in the index, [duplicates_in_folder]
    returns exactly the entries of the pairs of a group indexed for the
    folder and a member of it whose parent is the folder: the entry's
    file is the member, its other copies are the group's member set
    without the member, its size is the group's. Counted against the
    values of the groups (member set and size), there is one entry per
    pair. No entry lists its own file among the other copies, and the
    file and the other copies together are the member set of a group
    with a member in the folder. *)
Theorem C1_duplicates_in_folder_entries
    (self : JDupesOutput) (folder : Path) (cached : gset MatchSet) :
  _folder_cache self !! folder = Some cached ->
  exists entries, duplicates_in_folder self folder = Ok entries /\
    (forall e, e ∈ entries <->
       exists ms fp, ms ∈ cached /\ fp ∈ file_list ms /\ Path.parent fp = folder /\
         DuplicateInFolder.in_duplicate_folder e = fp /\
         DuplicateInFolder.other_paths e = (members ms ∖ {[fp]}) /\
         DuplicateInFolder.size e = file_size ms) /\
    size entries =
      sum_list ((fun v => size (members_in folder v.1)) <$> elements (group_values cached)) /\
    (forall e, e ∈ entries ->
       (DuplicateInFolder.in_duplicate_folder e ∉ DuplicateInFolder.other_paths e) /\
       exists ms, ms ∈ cached /\
         (exists fp, fp ∈ file_list ms /\ Path.parent fp = folder) /\
         ({[DuplicateInFolder.in_duplicate_folder e]} ∪ DuplicateInFolder.other_paths e)
           = members ms).
Proof.
  intros Hc.
  destruct (duplicates_in_folder_elem_of self folder cached Hc) as (entries & Hrun & He).
  exists entries. split_and!; [done| | |].
  - intros e. rewrite He. split.
    + intros (ms & fp & ? & ? & ? & ->). exists ms, fp. by split_and!.
    + intros (ms & fp & ? & ? & ? & ? & ? & ?). exists ms, fp. split_and!; try done.
      destruct e; simpl in *. unfold entry_of. by f_equal.
  - by apply entries_size, entries_as_union.
  - intros e (ms & fp & Hms & Hfp & Hpar & ->)%He. simpl. split; [set_solver|].
    exists ms. split_and!; [done|by exists fp|].
    unfold members. apply set_eq. intros x.
    assert (fp ∈ (list_to_set (file_list ms) : gset Path)) as Hfp'
      by (by apply elem_of_list_to_set).
    destruct (decide (x = fp)) as [->|?]; set_solver.
Qed.

Lemma C1_witness :
  _folder_cache Example.output !! Example.d2 = Some Example.groups /\
  exists entries, duplicates_in_folder Example.output Example.d2 = Ok entries /\
                  size entries = 3%nat.
Proof.
  assert (_folder_cache Example.output !! Example.d2 = Some Example.groups) as Hc
    by compute_done.
  split; [exact Hc|].
  destruct (C1_duplicates_in_folder_entries _ _ _ Hc) as (entries & Hrun & _ & Hsize & _).
  exists entries. split; [exact Hrun|]. rewrite Hsize. vm_compute. reflexivity.
Defined.

(** C3. In the folder cache built from a set of groups, a folder is a
    key exactly when some group has a member whose parent it is. The
    set stored for the folder holds exactly the groups with such a
    member, each of them once, also when a group has two or more
    members in the folder. *)
Theorem C3_folder_cache_lookup (S : gset MatchSet) (f : Path) :
  (f ∈ dom (_create_folder_cache S) <->
     exists ms, ms ∈ S /\ exists fp, fp ∈ file_list ms /\ Path.parent fp = f) /\
  forall G, _create_folder_cache S !! f = Some G ->
    (forall ms, ms ∈ G <->
       ms ∈ S /\ exists fp, fp ∈ file_list ms /\ Path.parent fp = f) /\
    (forall ms, length (filter (fun m => m = ms) (elements G)) <= 1)%nat /\
    size G = size (filter (fun ms => f ∈ directory_list ms) S).
Proof.
  split.
  - rewrite elem_of_dom, folder_cache_is_Some.
    by setoid_rewrite elem_of_directory_list.
  - intros G HG.
    pose proof (folder_cache_lookup S f G HG) as Hlookup.
    split_and!.
    + intros ms. by rewrite Hlookup, elem_of_directory_list.
    + intros ms. pose proof (NoDup_elements G) as Hnd.
      induction Hnd as [|x l Hx Hnd IH]; [simpl; lia|].
      rewrite filter_cons. case_decide as Heq; [|done].
      subst x. cbn [length].
      destruct (filter (fun m => m = ms) l) as [|y k] eqn:Hfl; [simpl; lia|].
      assert (y ∈ filter (fun m => m = ms) l) as Hy by (rewrite Hfl; left).
      apply list_elem_of_filter in Hy as [-> Hy]. done.
    + f_equal. apply set_eq. intros ms. rewrite Hlookup, elem_of_filter. tauto.
Qed.

Lemma C3_witness :
  _create_folder_cache {[Example.group_A]} !! Example.d1 = Some {[Example.group_A]} /\
  length (filter (fun m => m = Example.group_A)
                 (elements ({[Example.group_A]} : gset MatchSet))) = 1%nat.
Proof.
  assert (_create_folder_cache {[Example.group_A]} !! Example.d1
          = Some {[Example.group_A]}) as Hc by compute_done.
  split; [exact Hc|].
  destruct (C3_folder_cache_lookup {[Example.group_A]} Example.d1) as [_ H].
  destruct (H _ Hc) as (_ & _ & _).
  vm_compute. reflexivity.
Defined.

(** C5. When no group has a member whose parent is the folder, the
    folder is not a key of the cache and [duplicates_in_folder] raises
    [KeyError]; it does not return the empty set. *)
Theorem C5_unindexed_folder_raises
    (info : NextcloudInfo) (S : gset MatchSet) (folder : Path) :
  (forall ms fp, ms ∈ S -> fp ∈ file_list ms -> Path.parent fp <> folder) ->
  _folder_cache (init info S) !! folder = None /\
  duplicates_in_folder (init info S) folder = Raise KeyError /\
  duplicates_in_folder (init info S) folder <> Ok ∅.
Proof.
  intros Hno.
  assert (_folder_cache (init info S) !! folder = None) as Hnone.
  { apply eq_None_not_Some. simpl. rewrite folder_cache_is_Some.
    intros (ms & Hms & (fp & Hfp & Hpar)%elem_of_directory_list).
    by apply (Hno ms fp). }
  split; [done|].
  unfold duplicates_in_folder. rewrite Hnone. done.
Qed.

Lemma C5_witness :
  duplicates_in_folder Example.output Example.d3 = Raise KeyError.
Proof.
  refine (proj1 (proj2 (C5_unindexed_folder_raises Example.info Example.groups Example.d3 _))).
  intros ms fp Hms Hfp.
  apply elem_of_union in Hms as [Hms|Hms]; apply elem_of_singleton in Hms; subst ms;
    cbn [Example.group_A Example.group_B file_list] in Hfp;
    repeat (apply elem_of_cons in Hfp as [->|Hfp]; [by compute_done|]);
    by apply elem_of_nil in Hfp.
Defined.

(** The groups of the example are the match sets of its JSON, in the
    order of construction. *)
Lemma example_groups_from_json :
  exists a b,
    _get_matchsets Example.json = Ok [a; b] /\
    MatchSet.typed 1 a = Some Example.group_A /\
    MatchSet.typed 2 b = Some Example.group_B.
Proof. by eexists _, _. Qed.

Lemma folders_with_duplicates_dom (info : NextcloudInfo) (S : gset MatchSet) :
  folders_with_duplicates (init info S) = dom (_folder_cache (init info S)).
Proof.
  apply set_eq. intros f.
  rewrite elem_of_folders_with_duplicates, elem_of_dom. simpl.
  by rewrite folder_cache_is_Some.
Qed.

Lemma duplicates_in_folder_is_Ok (self : JDupesOutput) folder :
  folder ∈ dom (_folder_cache self) -> is_Ok (duplicates_in_folder self folder).
Proof.
  intros [cached Hc]%elem_of_dom.
  destruct (duplicates_in_folder_elem_of self folder cached Hc) as (entries & Hrun & _).
  by exists entries.
Qed.

(** ** The report *)

(** Sorting *)
Section sorted_facts.
Context {A : Type} (key : A -> nat).

Lemma insert_by_Permutation x l : insert_by key x l ≡ₚ x :: l.
Proof.
  induction l as [|y l IH]; simpl; [done|].
  destruct (key x <=? key y)%nat; [done|].
  rewrite IH. apply perm_swap.
Qed.

Lemma sorted_Permutation l : sorted key l ≡ₚ l.
Proof.
  induction l as [|x l IH]; simpl; [done|].
  by rewrite insert_by_Permutation, IH.
Qed.

Lemma insert_by_StronglySorted x l :
  StronglySorted (key_le key) l -> StronglySorted (key_le key) (insert_by key x l).
Proof.
  induction 1 as [|y l Hl IH Hy]; simpl.
  - repeat constructor.
  - destruct (key x <=? key y)%nat eqn:Hxy.
    + apply Nat.leb_le in Hxy. constructor; [by constructor|].
      constructor; [done|].
      eapply Forall_impl; [exact Hy|]. unfold key_le. intros; simpl in *; lia.
    + apply Nat.leb_gt in Hxy. constructor; [done|].
      rewrite insert_by_Permutation. constructor; [unfold key_le; lia|done].
Qed.

Lemma sorted_StronglySorted l : StronglySorted (key_le key) (sorted key l).
Proof.
  induction l as [|x l IH]; simpl; [constructor|].
  by apply insert_by_StronglySorted.
Qed.

(** Stability: the elements of one key keep their order. *)
Lemma insert_by_stable k x l :
  filter (fun y => key y = k) (insert_by key x l)
  = filter (fun y => key y = k) (x :: l).
Proof.
  induction l as [|y l IH]; simpl; [done|].
  destruct (key x <=? key y)%nat eqn:Hxy; [done|].
  apply Nat.leb_gt in Hxy.
  rewrite (filter_cons _ y), IH, !(filter_cons _ x), (filter_cons _ y).
  repeat case_decide; try done; lia.
Qed.

Lemma sorted_stable k l :
  filter (fun y => key y = k) (sorted key l) = filter (fun y => key y = k) l.
Proof.
  induction l as [|x l IH]; simpl; [done|].
  by rewrite insert_by_stable, !filter_cons, IH.
Qed.
End sorted_facts.

(** Steps that only append to their accumulator *)
Lemma foldlM_appends {A} (f : list string -> A -> result (list string)) l :
  appends f -> appends (fun res (_ : unit) => foldlM f res l).
Proof.
  intros Hf a b _. revert b. induction l as [|x l IH]; intros b; simpl; [done|].
  rewrite Hf. destruct (f b x) as [r|e]; simpl; [apply IH|done].
Qed.

Lemma foldlM_sections {A} (f : list string -> A -> result (list string)) l res :
  appends f ->
  foldlM f res l = (fun secs => res ++ concat secs)%list <$> mapM (f []) l.
Proof.
  intros Hf. revert res. induction l as [|x l IH]; intros res; simpl.
  - by rewrite app_nil_r.
  - rewrite <- (app_nil_r res) at 1. rewrite Hf.
    destruct (f [] x) as [r|e]; simpl; [|done].
    rewrite IH. destruct (mapM (f []) l) as [secs|e]; simpl; [|done].
    by rewrite app_assoc.
Qed.

Lemma mapM_result_Forall2 {A B} (f : A -> result B) l r :
  mapM f l = Ok r <-> Forall2 (fun x y => f x = Ok y) l r.
Proof.
  revert r. induction l as [|x l IH]; intros r; simpl.
  - split; [intros [= <-]; constructor|by inversion 1].
  - destruct (f x) as [y|e] eqn:Hx; simpl.
    + destruct (mapM f l) as [k|e] eqn:Hl; simpl.
      * split.
        -- intros [= <-]. constructor; [done|]. by apply IH.
        -- inversion 1 as [|? y' ? k' Hy Hk]; subst.
           apply IH in Hk. rewrite Hx in Hy.
           injection Hy as ->. injection Hk as ->. done.
      * split; [done|]. inversion 1 as [|? y' ? k' Hy Hk]; subst.
        by apply IH in Hk.
    + split; [done|]. inversion 1; congruence.
Qed.

Section report_facts.
Context `{World}.

Lemma render_not_duplicate_appends self : appends (render_not_duplicate self).
Proof.
  intros a b x. unfold render_not_duplicate.
  destruct (Path.relative_to _ _); simpl; [|done]. by rewrite app_assoc.
Qed.

Lemma render_duplicate_appends self : appends (render_duplicate self).
Proof.
  intros a b x. unfold render_duplicate.
  destruct (Path.relative_to _ _); simpl; [|done].
  destruct (humansize _); simpl; [|done].
  destruct (mapM _ _); simpl; [|done].
  by rewrite <- !app_assoc.
Qed.

Lemma render_folder_appends self : appends (render_folder self).
Proof.
  intros a b [[folder entries] nd]. unfold render_folder.
  destruct (NextcloudInfo.create_link _ _); simpl; [|done].
  destruct (duplicate_folder_size _ _); simpl; [|done].
  destruct (humansize _); simpl; [|done].
  pose proof (foldlM_appends _ (elements entries) (render_duplicate_appends self)) as Hd.
  pose proof (foldlM_appends _ nd (render_not_duplicate_appends self)) as Hn.
  destruct (length nd =? 0)%nat; rewrite <- !app_assoc.
  - rewrite (Hd a _ ()). destruct (foldlM (render_duplicate self) _ _); simpl; [|done].
    destruct (0 <? length nd)%nat; [|done].
    rewrite <- !app_assoc. apply (Hn a _ ()).
  - rewrite (Hd a _ ()). destruct (foldlM (render_duplicate self) _ _); simpl; [|done].
    destruct (0 <? length nd)%nat; [|done].
    rewrite <- !app_assoc. apply (Hn a _ ()).
Qed.

Lemma report_lines_sections self lines :
  report_lines self = Ok lines ->
  exists folders hdr sections,
    sorted_folders self = Ok folders /\ header self = Ok hdr /\
    Forall2 (fun entry sec => render_folder self [] entry = Ok sec) folders sections /\
    lines = (hdr ++ concat sections)%list.
Proof.
  unfold report_lines. intros Hrun.
  destruct (sorted_folders self) as [folders|] eqn:Hf; simpl in Hrun; [|done].
  destruct (header self) as [hdr|] eqn:Hh; simpl in Hrun; [|done].
  rewrite (foldlM_sections _ _ _ (render_folder_appends self)) in Hrun.
  destruct (mapM _ folders) as [sections|] eqn:Hm; simpl in Hrun; [|done].
  injection Hrun as <-. exists folders, hdr, sections.
  split_and!; try done. by apply mapM_result_Forall2.
Qed.
End report_facts.

Section section_facts.
Context `{World}.

Lemma render_duplicate_plain self e ls :
  render_duplicate self [] e = Ok ls -> Forall plain_line ls.
Proof.
  unfold render_duplicate. intros Hrun.
  destruct (Path.relative_to _ _); simpl in Hrun; [|done].
  destruct (humansize _); simpl in Hrun; [|done].
  destruct (mapM _ _); simpl in Hrun; [|done].
  injection Hrun as <-. repeat constructor; by intros ?.
Qed.

Lemma render_not_duplicate_plain self x ls :
  render_not_duplicate self [] x = Ok ls -> Forall plain_line ls.
Proof.
  unfold render_not_duplicate. intros Hrun.
  destruct (Path.relative_to _ _); simpl in Hrun; [|done].
  injection Hrun as <-. repeat constructor; by intros ?.
Qed.

Lemma mapM_plain {A} (f : A -> result (list string)) l secs :
  (forall x ls, f x = Ok ls -> Forall plain_line ls) ->
  mapM f l = Ok secs -> Forall plain_line (concat secs).
Proof.
  intros Hf Hm%mapM_result_Forall2.
  induction Hm as [|x ls l secs Hx _ IH]; simpl; [constructor|].
  apply Forall_app. split; [by eapply Hf|done].
Qed.

Lemma render_folder_shape self folder entries nd sec :
  render_folder self [] (folder, entries, nd) = Ok sec ->
  exists link rollup hs dups nds,
    NextcloudInfo.create_link (_nextcloud_info self) folder = Ok link /\
    duplicate_folder_size self folder = Ok rollup /\
    humansize rollup = Ok hs /\
    Forall plain_line dups /\ Forall plain_line nds /\
    sec = ([ "## Ordner mit Duplikaten: " +:+ link;
             "Die Duplikate in diesem Ordner sind " +:+ hs +:+ " groß  " ]
           ++ (if decide (nd = []) then [pure_duplicate_marker] else [])
           ++ ["### Duplizierte Dateien:"] ++ dups
           ++ (if decide (nd = []) then []
               else "### Nicht duplizierte Dateien" :: nds))%list.
Proof.
  unfold render_folder. intros Hrun.
  destruct (NextcloudInfo.create_link _ _) as [link|] eqn:Hl; simpl in Hrun; [|done].
  destruct (duplicate_folder_size _ _) as [rollup|] eqn:Hr; simpl in Hrun; [|done].
  destruct (humansize _) as [hs|] eqn:Hh; simpl in Hrun; [|done].
  rewrite (foldlM_sections _ _ _ (render_duplicate_appends self)) in Hrun.
  destruct (mapM _ (elements entries)) as [dups|] eqn:Hd; simpl in Hrun; [|done].
  exists link, rollup, hs, (concat dups).
  pose proof (mapM_plain _ _ _ (render_duplicate_plain self) Hd) as Hpd.
  destruct nd as [|x nd].
  - simpl in Hrun. injection Hrun as <-. exists [].
    split_and!; try done.
    rewrite !decide_True by done. simpl. by rewrite app_nil_r.
  - cbn [length Nat.eqb Nat.ltb Nat.leb] in Hrun.
    rewrite (foldlM_sections _ _ _ (render_not_duplicate_appends self)) in Hrun.
    destruct (mapM _ (x :: nd)) as [nds|] eqn:Hn; simpl in Hrun; [|done].
    injection Hrun as <-. exists (concat nds).
    pose proof (mapM_plain _ _ _ (render_not_duplicate_plain self) Hn) as Hpn.
    split_and!; try done.
    rewrite decide_False by done. simpl. by rewrite <- !app_assoc.
Qed.

Lemma render_folder_marker self folder entries nd sec :
  render_folder self [] (folder, entries, nd) = Ok sec ->
  (nd = [] <-> pure_duplicate_marker ∈ sec) /\
  (nd = [] -> sec !! 2%nat = Some pure_duplicate_marker).
Proof.
  intros (link & rollup & hs & dups & nds & _ & _ & _ & Hd & Hn & ->)%render_folder_shape.
  destruct (decide (nd = [])) as [->|Hnd].
  - split; [|done]. split; [intros _|done].
    do 2 right. left.
  - split; [|done]. split; [done|]. intros Hin. exfalso.
    simpl in Hin.
    apply elem_of_cons in Hin as [Hin|Hin]; [done|].
    apply elem_of_cons in Hin as [Hin|Hin]; [done|].
    apply elem_of_cons in Hin as [Hin|Hin]; [done|].
    apply elem_of_app in Hin as [Hin|Hin].
    + by apply (proj1 (Forall_forall _ _) Hd _ Hin).
    + apply elem_of_cons in Hin as [Hin|Hin]; [done|].
      by apply (proj1 (Forall_forall _ _) Hn _ Hin).
Qed.
End section_facts.

Section parse_facts.
Context `{World}.

Lemma parse_folder_spec self acc folder r :
  parse_folder self acc folder = Ok r ->
  exists entry, r = (acc ++ [entry])%list /\ entry.1.1 = folder /\
                folder_parsed self entry.
Proof.
  unfold parse_folder. intros Hrun.
  destruct (iterdir folder) as [all_files|] eqn:Hi; simpl in Hrun; [|done].
  destruct (duplicates_in_folder self folder) as [entries|] eqn:Hd;
    simpl in Hrun; [|done].
  injection Hrun as <-. eexists. split; [done|]. split; [done|].
  exists all_files. simpl. split_and!; [done|done|].
  f_equal.
  assert (foldl (fun res e => {[DuplicateInFolder.in_duplicate_folder e]} ∪ res)
                ∅ (elements entries)
          = (set_map DuplicateInFolder.in_duplicate_folder entries : gset Path)) as ->;
    [|done].
  apply set_eq. intros x. rewrite elem_of_foldl_add, elem_of_map.
  setoid_rewrite elem_of_elements. set_solver.
Qed.

Lemma parse_folders_spec self l acc r :
  foldlM (parse_folder self) acc l = Ok r ->
  exists es, r = (acc ++ es)%list /\ es.*1.*1 = l /\ Forall (folder_parsed self) es.
Proof.
  revert acc. induction l as [|f l IH]; intros acc; simpl.
  - intros [= <-]. exists []. by rewrite app_nil_r.
  - destruct (parse_folder self acc f) as [r1|] eqn:Hp; simpl; [|done].
    apply parse_folder_spec in Hp as (entry & -> & Hf & Hparsed).
    intros (es & -> & Hfs & Hall)%IH.
    exists (entry :: es). rewrite <- app_assoc. split; [done|].
    split; [|by constructor].
    rewrite !fmap_cons. by f_equal.
Qed.

Lemma sorted_folders_spec self folders :
  sorted_folders self = Ok folders ->
  folders.*1.*1 ≡ₚ elements (folders_with_duplicates self) /\
  Forall (folder_parsed self) folders /\
  StronglySorted fewer_non_duplicates folders.
Proof.
  unfold sorted_folders. intros Hrun.
  destruct (foldlM _ _ _) as [parsed|] eqn:Hp; simpl in Hrun; [|done].
  injection Hrun as <-.
  apply parse_folders_spec in Hp as (es & -> & Hfs & Hall). simpl.
  split_and!.
  - rewrite <- Hfs. do 2 apply fmap_Permutation. apply sorted_Permutation.
  - by rewrite sorted_Permutation.
  - apply (sorted_StronglySorted (fun x : folder_entry => length x.2)).
Qed.
End parse_facts.

Lemma is_Ok_b_true {A} (m : result A) : is_Ok_b m = true -> exists a, m = Ok a.
Proof. destruct m; [eauto|done]. Qed.

Lemma foldlM_is_Ok {A B} (f : B -> A -> result B) l b :
  (forall b x, x ∈ l -> is_Ok (f b x)) -> is_Ok (foldlM f b l).
Proof.
  revert b. induction l as [|x l IH]; intros b Hf; simpl; [by exists b|].
  destruct (Hf b x) as [b' ->]; [left|]. simpl. apply IH.
  intros b'' y Hy. apply Hf. by right.
Qed.

Lemma total_size_insert info (S : gset MatchSet) cache cache' ms :
  ms ∉ S ->
  total_size (mk info ({[ms]} ∪ S) cache') = file_size ms + total_size (mk info S cache).
Proof.
  intros Hms. unfold total_size. simpl.
  rewrite (sum_Permutation _ (map file_size (ms :: elements S))).
  - simpl. by rewrite sum_cons.
  - apply (fmap_Permutation file_size). by apply elements_union_singleton.
Qed.

Section report_theorems.
Context `{World}.

(** C4. The lines of the report are the header followed by one
    section per folder with duplicates, the sections in ascending
    order of the number of non-duplicate files of their folders. The
    section of a folder holds the pure-duplicate marker line, as its
    third line, exactly when the folder has no non-duplicate file. *)
Theorem C4_sections_sorted_and_marked (self : JDupesOutput) (lines : list string) :
  report_lines self = Ok lines ->
  to_markdown self = Ok (join newline lines) /\
  exists folders hdr sections,
    sorted_folders self = Ok folders /\ header self = Ok hdr /\
    lines = (hdr ++ concat sections)%list /\
    folders.*1.*1 ≡ₚ elements (folders_with_duplicates self) /\
    Forall (folder_parsed self) folders /\
    StronglySorted fewer_non_duplicates folders /\
    Forall2 (fun entry sec =>
               render_folder self [] entry = Ok sec /\
               (exists link,
                  NextcloudInfo.create_link (_nextcloud_info self) entry.1.1 = Ok link /\
                  sec !! 0%nat = Some ("## Ordner mit Duplikaten: " +:+ link)) /\
               (entry.2 = [] <-> pure_duplicate_marker ∈ sec) /\
               (entry.2 = [] -> sec !! 2%nat = Some pure_duplicate_marker))
            folders sections.
Proof.
  intros Hrun. split; [unfold to_markdown; by rewrite Hrun|].
  destruct (report_lines_sections self lines Hrun)
    as (folders & hdr & sections & Hf & Hh & Hsec & ->).
  destruct (sorted_folders_spec self folders Hf) as (Hperm & Hparsed & Hsorted).
  exists folders, hdr, sections. split_and!; try done.
  eapply Forall2_impl; [exact Hsec|].
  intros [[folder entries] nd] sec Hr. simpl.
  split; [done|]. split; [|by eapply render_folder_marker].
  apply render_folder_shape in Hr
    as (link & rollup & hs & dups & nds & Hl & _ & _ & _ & _ & ->).
  by exists link.
Qed.

(** C7. The first four lines of the report are the title, the
    count of groups and of folders with duplicates, the formatted
    total size and the heading of the folder list. The total is the
    sum of the sizes of the groups of [match_sets], every group
    counted once whatever the entries and folders it contributes
    to. *)
Theorem C7_report_header (self : JDupesOutput) (lines : list string) :
  report_lines self = Ok lines ->
  exists total,
    humansize (total_size self) = Ok total /\
    take 4 lines =
      [ "# Duplikate von " +:+ NextcloudInfo.user (_nextcloud_info self);
        "Es gibt " +:+ pretty (size (match_sets self)) +:+ " Duplikate in "
          +:+ pretty (size (folders_with_duplicates self)) +:+ " Ordnern.  ";
        "Diese sind insgesamt " +:+ total +:+ " groß.";
        "## Alle Ordner mit Duplikaten" ] /\
    total_size self = sum (file_size <$> elements (match_sets self)) /\
    (forall ms, ms ∈ match_sets self ->
       total_size self
       = file_size ms
         + total_size (mk (_nextcloud_info self) (match_sets self ∖ {[ms]})
                          (_folder_cache self))).
Proof.
  intros Hrun.
  destruct (report_lines_sections self lines Hrun)
    as (folders & hdr & sections & _ & Hh & _ & ->).
  unfold header in Hh.
  destruct (humansize (total_size self)) as [total|] eqn:Ht; simpl in Hh; [|done].
  injection Hh as <-. exists total. split; [done|]. split; [done|].
  split; [done|]. intros ms Hms.
  rewrite <- (total_size_insert _ _ _ (_folder_cache self)) by set_solver.
  destruct self as [info S cache]. simpl in *.
  by rewrite <- union_difference_singleton_L.
Qed.
End report_theorems.

Lemma C4_witness :
  exists lines,
    @report_lines ReportExample.world ReportExample.output = Ok lines /\
    exists folders,
      @sorted_folders ReportExample.world ReportExample.output = Ok folders /\
      StronglySorted fewer_non_duplicates folders.
Proof.
  destruct (is_Ok_b_true (@report_lines ReportExample.world ReportExample.output))
    as [lines Hl]; [vm_compute; reflexivity|].
  exists lines. split; [exact Hl|].
  destruct (@C4_sections_sorted_and_marked ReportExample.world _ _ Hl)
    as (_ & folders & hdr & sections & Hf & _ & _ & _ & _ & Hs & _).
  exists folders. split; [exact Hf|exact Hs].
Defined.

Lemma C7_witness :
  exists lines,
    @report_lines ReportExample.world ReportExample.output = Ok lines /\
    lines !! 1%nat = Some "Es gibt 1 Duplikate in 2 Ordnern.  " /\
    lines !! 2%nat = Some "Diese sind insgesamt 2  KB groß.".
Proof.
  destruct (is_Ok_b_true (@report_lines ReportExample.world ReportExample.output))
    as [lines Hl]; [vm_compute; reflexivity|].
  exists lines. split; [exact Hl|].
  destruct (@C7_report_header ReportExample.world _ _ Hl) as (total & Ht & Hlines & _).
  assert (humansize (total_size ReportExample.output) = Ok "2  KB") as Hc
    by (vm_compute; reflexivity).
  rewrite Hc in Ht. injection Ht as <-.
  assert (forall n, (n < 4)%nat -> lines !! n = take 4 lines !! n) as Htake
    by (intros n Hn; by rewrite lookup_take_lt).
  rewrite !Htake by lia. rewrite Hlines. split; vm_compute; reflexivity.
Defined.

(** C9. For a [JDupesOutput] built from a set of groups,
    [folders_with_duplicates] is the key set of the folder cache. On
    each of these folders [duplicates_in_folder] returns; it does not
    raise [KeyError]. The folders of the sorted entries of the report
    are among them and carry the result of that call, and the first
    loop of [to_markdown] completes whenever listing these folders
    does. *)
Theorem C9_report_folders_are_indexed
    `{World} (info : NextcloudInfo) (S : gset MatchSet) :
  folders_with_duplicates (init info S) = dom (_folder_cache (init info S)) /\
  (forall folder, folder ∈ folders_with_duplicates (init info S) ->
     is_Ok (duplicates_in_folder (init info S) folder) /\
     duplicates_in_folder (init info S) folder <> Raise KeyError) /\
  (forall folders, sorted_folders (init info S) = Ok folders ->
     forall entry, entry ∈ folders ->
       entry.1.1 ∈ folders_with_duplicates (init info S) /\
       duplicates_in_folder (init info S) entry.1.1 = Ok entry.1.2) /\
  ((forall folder, folder ∈ folders_with_duplicates (init info S) ->
      is_Ok (iterdir folder)) ->
   is_Ok (sorted_folders (init info S))).
Proof.
  pose proof (folders_with_duplicates_dom info S) as Hdom.
  assert (forall folder, folder ∈ folders_with_duplicates (init info S) ->
            is_Ok (duplicates_in_folder (init info S) folder)) as Hok.
  { intros folder Hf. apply duplicates_in_folder_is_Ok. by rewrite <- Hdom. }
  split_and!; [done| | |].
  - intros folder Hf. split; [by apply Hok|].
    destruct (Hok folder Hf) as [entries ->]. done.
  - intros folders (Hperm & Hparsed & _)%sorted_folders_spec entry Hentry. split.
    + apply elem_of_elements. rewrite <- Hperm.
      apply list_elem_of_fmap. exists entry.1. split; [done|].
      apply list_elem_of_fmap. by exists entry.
    + apply (proj1 (Forall_forall _ _) Hparsed) in Hentry as (all_files & _ & Hd & _).
      done.
  - intros Hlist. unfold sorted_folders.
    destruct (foldlM_is_Ok (parse_folder (init info S)) (elements (folders_with_duplicates (init info S))) [])
      as [parsed ->]; [|by eexists].
    intros acc folder Hf%elem_of_elements. unfold parse_folder.
    destruct (Hlist folder Hf) as [all_files ->].
    destruct (Hok folder Hf) as [entries ->]. by eexists.
Qed.

Lemma C9_witness :
  folders_with_duplicates Example.output = dom (_folder_cache Example.output) /\
  is_Ok (@sorted_folders ReportExample.world ReportExample.output).
Proof.
  split.
  - apply (@C9_report_folders_are_indexed ReportExample.world Example.info Example.groups).
  - apply (@C9_report_folders_are_indexed ReportExample.world ReportExample.info
             {[ReportExample.group]}).
    intros folder Hf. apply is_Ok_b_true.
    apply elem_of_folders_with_duplicates in Hf as (ms & Hms & Hdir).
    cbn [match_sets init] in Hms.
    apply elem_of_singleton in Hms. subst ms.
    cbn [directory_list ReportExample.group file_list map] in Hdir.
    repeat (apply elem_of_cons in Hdir as [->|Hdir]; [vm_compute; reflexivity|]).
    by apply elem_of_nil in Hdir.
Defined.

(** C2. The size rollup of a folder is the sum of [size] over the
    entries [duplicates_in_folder] returns for it, once per entry and
    not once per group: a group with k members in the folder
    contributes k times its size. [to_markdown] prints this rollup,
    formatted, as the second line of the folder's section. For the
    groups A and B of the example the rollup of /d2 is 200, and so is
    that of /d1. *)
Theorem C2_rollup_counts_every_entry :
  (forall (self : JDupesOutput) (folder : Path) (cached : gset MatchSet),
     _folder_cache self !! folder = Some cached ->
     exists entries,
       duplicates_in_folder self folder = Ok entries /\
       duplicate_folder_size self folder
         = Ok (sum (DuplicateInFolder.size <$> elements entries)) /\
       duplicate_folder_size self folder
         = Ok (sum ((fun v => Z.of_nat (size (members_in folder v.1)) * v.2)
                      <$> elements (group_values cached)))) /\
  (forall `{World} (self : JDupesOutput) folder entries nd sec,
     render_folder self [] (folder, entries, nd) = Ok sec ->
     exists rollup hs,
       duplicate_folder_size self folder = Ok rollup /\
       humansize rollup = Ok hs /\
       sec !! 1%nat = Some ("Die Duplikate in diesem Ordner sind " +:+ hs +:+ " groß  ")) /\
  duplicate_folder_size Example.output Example.d2 = Ok 200 /\
  duplicate_folder_size Example.output Example.d1 = Ok 200.
Proof.
  split_and!.
  - intros self folder cached Hc.
    destruct (duplicates_in_folder_elem_of self folder cached Hc) as (entries & Hrun & He).
    exists entries. split; [done|].
    unfold duplicate_folder_size. rewrite Hrun. simpl. split; [done|].
    f_equal. apply (entries_ssum folder cached entries).
    by apply entries_as_union.
  - intros W self folder entries nd sec
      (link & rollup & hs & dups & nds & _ & Hr & Hh & _ & _ & ->)%render_folder_shape.
    by exists rollup, hs.
  - vm_compute. reflexivity.
  - vm_compute. reflexivity.
Qed.

Lemma C2_witness :
  _folder_cache Example.output !! Example.d2 = Some Example.groups /\
  duplicate_folder_size Example.output Example.d2 = Ok (1 * 100 + 2 * 50).
Proof.
  assert (_folder_cache Example.output !! Example.d2 = Some Example.groups) as Hc
    by compute_done.
  split; [exact Hc|].
  destruct (proj1 C2_rollup_counts_every_entry _ _ _ Hc) as (entries & _ & _ & ->).
  vm_compute. reflexivity.
Defined.

(** ** The size formatter *)

Local Close Scope string_scope.

(** Bit lengths *)
Lemma digits2_pos_bounds p :
  2 ^ (Z.pos (digits2_pos p) - 1) <= Z.pos p < 2 ^ Z.pos (digits2_pos p).
Proof.
  induction p as [p IH|p IH|]; cbn [digits2_pos].
  - rewrite Pos2Z.inj_succ, Z.pow_succ_r by lia.
    replace (Z.succ (Z.pos (digits2_pos p)) - 1)
      with (Z.succ (Z.pos (digits2_pos p) - 1)) by lia.
    rewrite Z.pow_succ_r by lia. lia.
  - rewrite Pos2Z.inj_succ, Z.pow_succ_r by lia.
    replace (Z.succ (Z.pos (digits2_pos p)) - 1)
      with (Z.succ (Z.pos (digits2_pos p) - 1)) by lia.
    rewrite Z.pow_succ_r by lia. lia.
  - simpl. lia.
Qed.

Lemma digits2_pos_unique p d :
  2 ^ (Z.pos d - 1) <= Z.pos p < 2 ^ Z.pos d -> digits2_pos p = d.
Proof.
  intros [Hlo Hhi]. pose proof (digits2_pos_bounds p) as [Hlo' Hhi'].
  destruct (Z.lt_trichotomy (Z.pos (digits2_pos p)) (Z.pos d)) as [Hlt|[Heq|Hgt]].
  - assert (2 ^ Z.pos (digits2_pos p) <= 2 ^ (Z.pos d - 1))
      by (apply Z.pow_le_mono_r; lia). lia.
  - by injection Heq.
  - assert (2 ^ Z.pos d <= 2 ^ (Z.pos (digits2_pos p) - 1))
      by (apply Z.pow_le_mono_r; lia). lia.
Qed.

Lemma iter_xO_value p k : Z.pos (Pos.iter xO p k) = Z.pos p * 2 ^ Z.pos k.
Proof.
  induction k as [|k IH] using Pos.peano_ind.
  - simpl. lia.
  - rewrite Pos.iter_succ, Pos2Z.inj_succ, Z.pow_succ_r by lia.
    rewrite Pos2Z.inj_xO, IH. lia.
Qed.

Lemma mantissa_value p :
  Z.pos (digits2_pos p) <= 53 ->
  Z.pos (mantissa p) = Z.pos p * 2 ^ (53 - Z.pos (digits2_pos p)).
Proof.
  intros Hd. unfold mantissa.
  destruct (53 - Z.pos (digits2_pos p)) as [|k|k] eqn:Hk; [simpl; lia| |lia].
  apply iter_xO_value.
Qed.

Lemma mantissa_digits p :
  Z.pos (digits2_pos p) <= 53 -> digits2_pos (mantissa p) = 53%positive.
Proof.
  intros Hd. apply digits2_pos_unique. rewrite mantissa_value by done.
  pose proof (digits2_pos_bounds p) as [Hlo Hhi].
  set (d := Z.pos (digits2_pos p)) in *.
  assert (0 < 2 ^ (53 - d)) by (apply Z.pow_pos_nonneg; lia).
  replace (2 ^ (53 - 1)) with (2 ^ (d - 1) * 2 ^ (53 - d))
    by (rewrite <- Z.pow_add_r by lia; f_equal; lia).
  replace (2 ^ 53) with (2 ^ d * 2 ^ (53 - d))
    by (rewrite <- Z.pow_add_r by lia; f_equal; lia).
  split; nia.
Qed.

(** Rounding a 53-bit mantissa changes nothing *)
Lemma binary_round_aux_exact s m e :
  digits2_pos m = 53%positive -> -1074 <= e <= 971 ->
  binary_round_aux prec emax s (Z.pos m) e loc_Exact = S754_finite s m e.
Proof.
  intros Hm He. unfold binary_round_aux, shr_fexp, fexp, emin, prec, emax.
  cbn [Zdigits2 shr_record_of_loc]. rewrite Hm.
  replace (Z.max (53 + e - 53) (3 - 1024 - 53) - e) with 0 by lia.
  cbn [shr shr_m loc_of_shr_record round_nearest_even Zdigits2 shr_record_of_loc].
  rewrite Hm.
  replace (Z.max (53 + e - 53) (3 - 1024 - 53) - e) with 0 by lia.
  cbn [shr shr_m].
  replace (e <=? 1024 - 53) with true by (symmetry; apply Z.leb_le; lia).
  done.
Qed.

Lemma float_of_int_exact p :
  Z.pos (digits2_pos p) <= 53 ->
  float_of_int (Z.pos p) = Ok (S754_finite false (mantissa p) (exponent p)).
Proof.
  intros Hd. unfold float_of_int, binary_normalize, binary_round.
  assert (shl_align p 0 (fexp prec emax (Z.pos (digits2_pos p) + 0))
          = (mantissa p, exponent p)) as ->.
  { unfold shl_align, fexp, emin, prec, emax, mantissa, exponent.
    pose proof (Pos2Z.is_pos (digits2_pos p)).
    replace (Z.max (Z.pos (digits2_pos p) + 0 - 53) (3 - 1024 - 53) - 0)
      with (- (53 - Z.pos (digits2_pos p))) by lia.
    replace (Z.max (Z.pos (digits2_pos p) + 0 - 53) (3 - 1024 - 53))
      with (Z.pos (digits2_pos p) - 53) by lia.
    destruct (53 - Z.pos (digits2_pos p)) as [|k|k] eqn:Hk; simpl; [|done|lia].
    f_equal. lia. }
  rewrite binary_round_aux_exact; [done|by apply mantissa_digits|].
  unfold exponent. pose proof (Pos2Z.is_pos (digits2_pos p)). lia.
Qed.

Lemma SFdiv_1024_exact m e :
  digits2_pos m = 53%positive -> -1063 <= e <= 981 ->
  SFdiv prec emax (S754_finite false m e) float_1024 = S754_finite false m (e - 10).
Proof.
  intros Hm He. unfold SFdiv, float_1024, SFdiv_core_binary.
  cbn [Zdigits2 xorb]. rewrite Hm.
  replace (digits2_pos (2 ^ 52)) with 53%positive by (vm_compute; reflexivity).
  unfold fexp, emin, prec, emax.
  replace (Z.min (Z.max (53 + e - (53 + -42) - 53) (3 - 1024 - 53)) (e - -42))
    with (e - 11) by lia.
  replace (e - -42 - (e - 11)) with 53 by lia.
  rewrite Z.shiftl_mul_pow2 by lia.
  assert (Z.div_eucl (Z.pos m * 2 ^ 53) (Z.pos (2 ^ 52)) = (Z.pos m~0, 0)) as ->.
  { pose proof (Z.div_eucl_eq (Z.pos m * 2 ^ 53) (Z.pos (2 ^ 52))) as Heq.
    pose proof (Z.mod_pos_bound (Z.pos m * 2 ^ 53) (Z.pos (2 ^ 52))) as Hbound.
    unfold Z.modulo in Hbound.
    destruct (Z.div_eucl (Z.pos m * 2 ^ 53) (Z.pos (2 ^ 52))) as [q r].
    assert (Z.pos (2 ^ 52) = 2 ^ 52) as Hp by (vm_compute; reflexivity).
    rewrite Hp in *. specialize (Heq ltac:(lia)). specialize (Hbound ltac:(lia)).
    replace (2 ^ 53) with (2 * 2 ^ 52) in Heq by (vm_compute; reflexivity).
    assert (q = 2 * Z.pos m /\ r = 0) as [-> ->]; [|done].
    assert (0 < 2 ^ 52) by lia. nia. }
  replace (new_location (Z.pos (2 ^ 52)) 0) with loc_Exact by (vm_compute; reflexivity).
  unfold binary_round_aux, shr_fexp, fexp, emin.
  cbn [Zdigits2 digits2_pos shr_record_of_loc]. rewrite Hm.
  replace (Z.max (Z.pos (Pos.succ 53) + (e - 11) - 53) (3 - 1024 - 53) - (e - 11))
    with 1 by lia.
  cbn [shr SpecFloat.iter_pos shr_1 orb shr_m loc_of_shr_record round_nearest_even
       Zdigits2 shr_record_of_loc].
  rewrite Hm.
  replace (Z.max (53 + (e - 11 + 1) - 53) (3 - 1024 - 53) - (e - 11 + 1)) with 0 by lia.
  cbn [shr shr_m].
  replace (e - 11 + 1 <=? 1024 - 53) with true by (symmetry; apply Z.leb_le; lia).
  f_equal. lia.
Qed.

Lemma ge_1024_float m e :
  digits2_pos m = 53%positive ->
  ge_1024 (NFloat (S754_finite false m e)) = (-42 <=? e).
Proof.
  intros Hm. unfold ge_1024, SFleb, SFcompare, float_1024.
  destruct (Z.compare_spec (-42) e) as [Heq|Hlt|Hgt].
  - subst e. rewrite Z.leb_refl.
    pose proof (digits2_pos_bounds m) as [Hlo _]. rewrite Hm in Hlo.
    assert (Z.pos (2 ^ 52) = 2 ^ (53 - 1)) as Hp by (vm_compute; reflexivity).
    rewrite <- Hp in Hlo. apply Pos2Z.pos_le_pos, Pos.compare_le_iff in Hlo.
    unfold Pos.compare in Hlo.
    by destruct (Pos.compare_cont Eq (2 ^ 52) m).
  - symmetry. apply Z.leb_le. lia.
  - symmetry. apply Z.leb_gt. lia.
Qed.

Lemma round_half_even_scale a b c :
  0 < b -> 0 < c -> round_half_even (a * c) (b * c) = round_half_even a b.
Proof.
  intros Hb Hc. unfold round_half_even.
  rewrite Z.div_mul_cancel_r by lia.
  rewrite Z.mul_mod_distr_r by lia.
  replace (2 * (a mod b * c) ?= b * c) with (2 * (a mod b) ?= b); [done|].
  destruct (Z.compare_spec (2 * (a mod b)) b) as [Heq|Hlt|Hgt]; symmetry.
  - apply Z.compare_eq_iff. nia.
  - apply Z.compare_lt_iff. nia.
  - apply Z.compare_gt_iff. nia.
Qed.

Lemma round_half_even_1 a : round_half_even a 1 = a.
Proof.
  unfold round_half_even. rewrite Z.div_1_r, Z.mod_1_r. done.
Qed.

(** The loop on a float with a 53-bit mantissa *)

Lemma float_steps_le remaining e : (float_steps remaining e <= remaining)%nat.
Proof.
  revert e. induction remaining as [|r IH]; intros e; simpl; [lia|].
  destruct (-42 <=? e); [|lia]. specialize (IH (e - 10)). lia.
Qed.

Lemma humansize_loop_float remaining m e i :
  digits2_pos m = 53%positive -> -1000 <= e <= 981 ->
  (remaining <= 5)%nat ->
  humansize_loop remaining (NFloat (S754_finite false m e)) i =
    Ok (NFloat (S754_finite false m (e - 10 * Z.of_nat (float_steps remaining e))),
        (i + float_steps remaining e)%nat).
Proof.
  intros Hm. revert e i. induction remaining as [|r IH]; intros e i He Hr.
  - simpl. rewrite Z.sub_0_r, Nat.add_0_r. done.
  - cbn [humansize_loop float_steps]. rewrite ge_1024_float by done.
    destruct (-42 <=? e) eqn:Hge.
    + unfold div_1024. cbn [to_float mbind result_bind mret result_ret].
      rewrite SFdiv_1024_exact by (try done; lia).
      apply Z.leb_le in Hge.
      rewrite IH by lia.
      replace (e - 10 * Z.of_nat (S (float_steps r (e - 10))))
        with (e - 10 - 10 * Z.of_nat (float_steps r (e - 10))) by lia.
      replace (i + S (float_steps r (e - 10)))%nat
        with (i + 1 + float_steps r (e - 10))%nat by lia.
      done.
    + rewrite Z.sub_0_r, Nat.add_0_r. done.
Qed.

Lemma pow_1024 i : 0 <= i -> 1024 ^ i = 2 ^ (10 * i).
Proof. intros Hi. rewrite Z.pow_mul_r by lia. done. Qed.

Lemma ge_pow_1024_digits p i :
  (1024 ^ Z.of_nat (i + 1) <=? Z.pos p)
  = (-42 <=? exponent p - 10 * Z.of_nat i).
Proof.
  unfold exponent. pose proof (digits2_pos_bounds p) as [Hlo Hhi].
  set (d := Z.pos (digits2_pos p)) in *.
  assert (0 < d) by (unfold d; lia).
  rewrite pow_1024 by lia.
  destruct (Z.le_gt_cases (10 * Z.of_nat (i + 1) + 1) d) as [Hd|Hd].
  - rewrite (proj2 (Z.leb_le _ _)), (proj2 (Z.leb_le _ _)); [done|lia|].
    assert (2 ^ (10 * Z.of_nat (i + 1)) <= 2 ^ (d - 1))
      by (apply Z.pow_le_mono_r; lia). lia.
  - rewrite (proj2 (Z.leb_gt _ _)), (proj2 (Z.leb_gt _ _)); [done|lia|].
    assert (2 ^ d <= 2 ^ (10 * Z.of_nat (i + 1)))
      by (apply Z.pow_le_mono_r; lia). lia.
Qed.

Lemma exact_unit_float_steps p remaining i :
  exact_unit remaining (Z.pos p) i
  = (i + float_steps remaining (exponent p - 10 * Z.of_nat i))%nat.
Proof.
  revert i. induction remaining as [|r IH]; intros i; cbn [exact_unit float_steps].
  - lia.
  - rewrite ge_pow_1024_digits.
    destruct (-42 <=? exponent p - 10 * Z.of_nat i); [|lia].
    rewrite IH. replace (exponent p - 10 * Z.of_nat (i + 1))
      with (exponent p - 10 * Z.of_nat i - 10) by lia. lia.
Qed.

Lemma exact_unit_le remaining n i :
  (exact_unit remaining n i <= i + remaining)%nat.
Proof.
  revert i. induction remaining as [|r IH]; intros i; simpl; [lia|].
  destruct (_ <=? n); [|lia]. specialize (IH (i + 1)%nat). lia.
Qed.

Lemma humansize_loop_S remaining nbytes i :
  humansize_loop (S remaining) nbytes i =
    if ge_1024 nbytes then
      nbytes' ← div_1024 nbytes; humansize_loop remaining nbytes' (i + 1)%nat
    else Ok (nbytes, i).
Proof. done. Qed.

Lemma humansize_loop_exact p :
  Z.pos (digits2_pos p) <= 53 ->
  exists x,
    humansize_loop 5 (NInt (Z.pos p)) 0 = Ok (x, exact_unit 5 (Z.pos p) 0) /\
    to_float x = Ok (S754_finite false (mantissa p)
                       (exponent p - 10 * Z.of_nat (exact_unit 5 (Z.pos p) 0))) /\
    (exponent p - 10 * Z.of_nat (exact_unit 5 (Z.pos p) 0) < 0).
Proof.
  intros Hd. pose proof (mantissa_digits p Hd) as Hm.
  pose proof (Pos2Z.is_pos (digits2_pos p)) as Hpos.
  rewrite humansize_loop_S. cbn [ge_1024].
  change (exact_unit 5 (Z.pos p) 0)
    with (if 1024 <=? Z.pos p then exact_unit 4 (Z.pos p) (0 + 1) else 0%nat).
  destruct (1024 <=? Z.pos p) eqn:Hge.
  - unfold div_1024. cbn [to_float]. rewrite float_of_int_exact by done.
    cbn [mbind result_bind mret result_ret].
    rewrite SFdiv_1024_exact by (try done; unfold exponent; lia).
    rewrite humansize_loop_float by (try done; unfold exponent; lia).
    rewrite (exact_unit_float_steps p 4 (0 + 1)).
    change (Z.of_nat (0 + 1)) with 1. rewrite Z.mul_1_r.
    eexists. split; [done|]. cbn [to_float]. split.
    + do 2 f_equal. lia.
    + unfold exponent. lia.
  - exists (NInt (Z.pos p)). split; [done|]. cbn [to_float]. split.
    + rewrite float_of_int_exact by done. do 2 f_equal. lia.
    + apply Z.leb_gt in Hge. unfold exponent.
      pose proof (digits2_pos_bounds p) as [Hlo _].
      destruct (Z.le_gt_cases 53 (Z.pos (digits2_pos p))) as [Hbig|]; [|lia].
      assert (2 ^ 10 <= 2 ^ (Z.pos (digits2_pos p) - 1))
        by (apply Z.pow_le_mono_r; lia).
      change (2 ^ 10) with 1024 in *. lia.
Qed.

Lemma hundredths_exact p i :
  Z.pos (digits2_pos p) <= 53 -> 0 <= i -> exponent p - 10 * i < 0 ->
  hundredths (mantissa p) (exponent p - 10 * i)
  = round_half_even (100 * Z.pos p) (1024 ^ i).
Proof.
  intros Hd Hi He. unfold hundredths.
  rewrite (proj2 (Z.leb_gt _ _)) by lia.
  rewrite mantissa_value by done. unfold exponent in *.
  set (d := Z.pos (digits2_pos p)) in *.
  replace (- (d - 53 - 10 * i)) with (10 * i + (53 - d)) by lia.
  rewrite Z.pow_add_r by lia. rewrite <- pow_1024 by lia.
  replace (Z.pos p * 2 ^ (53 - d) * 100) with (100 * Z.pos p * 2 ^ (53 - d)) by lia.
  apply round_half_even_scale.
  - apply Z.pow_pos_nonneg; lia.
  - apply Z.pow_pos_nonneg; lia.
Qed.

Lemma humansize_exact_correct n :
  0 <= n < 2 ^ 53 -> humansize n = Ok (humansize_exact n).
Proof.
  intros [Hlo Hhi]. destruct n as [|p|p]; [vm_compute; reflexivity| |lia].
  assert (Z.pos (digits2_pos p) <= 53) as Hd.
  { pose proof (digits2_pos_bounds p) as [Hlo' _].
    destruct (Z.le_gt_cases (Z.pos (digits2_pos p)) 53) as [|Hbig]; [done|].
    assert (2 ^ 53 <= 2 ^ (Z.pos (digits2_pos p) - 1))
      by (apply Z.pow_le_mono_r; lia). lia. }
  destruct (humansize_loop_exact p Hd) as (x & Hloop & Hx & He).
  unfold humansize, humansize_exact.
  change (length suffixes - 1)%nat with 5%nat.
  rewrite Hloop. cbn [mbind result_bind]. unfold format_num_2f. rewrite Hx.
  cbn [mbind result_bind mret result_ret format_2f].
  rewrite hundredths_exact by (try done; lia).
  pose proof (exact_unit_le 5 (Z.pos p) 0) as Hle.
  destruct (suffixes !! exact_unit 5 (Z.pos p) 0) as [suffix|] eqn:Hs.
  - by rewrite (nth_lookup_Some _ _ _ _ Hs).
  - apply lookup_ge_None in Hs. change (length suffixes) with 6%nat in Hs. lia.
Qed.

Local Open Scope string_scope.

Lemma exact_unit_spec remaining n i :
  let j := exact_unit remaining n i in
  (i <= j <= i + remaining)%nat /\
  ((j < i + remaining)%nat -> n < 1024 ^ Z.of_nat (j + 1)) /\
  ((i < j)%nat -> 1024 ^ Z.of_nat j <= n).
Proof.
  revert i. induction remaining as [|r IH]; intros i; cbn [exact_unit].
  - simpl. lia.
  - destruct (1024 ^ Z.of_nat (i + 1) <=? n)%Z eqn:Hge.
    + apply Z.leb_le in Hge. specialize (IH (i + 1)%nat).
      cbv zeta in IH. destruct IH as (Hrange & Hlt & Hle).
      split; [lia|split].
      * intros Hj. apply Hlt. lia.
      * intros _. destruct (decide (exact_unit r n (i + 1) = (i + 1)%nat)) as [->|Hne].
        -- done.
        -- apply Hle. lia.
    + apply Z.leb_gt in Hge. split; [lia|split]; [done|lia].
Qed.

(** ** Counts of any size

    Above [2 ^ 53] the conversion of the count to a float rounds. *)

Local Close Scope string_scope.

Lemma digits_le_53 p : Z.pos p < 2 ^ 53 -> Z.pos (digits2_pos p) <= 53.
Proof.
  intros Hp. pose proof (digits2_pos_bounds p) as [Hlo' _].
  destruct (Z.le_gt_cases (Z.pos (digits2_pos p)) 53) as [|Hbig]; [done|].
  assert (2 ^ 53 <= 2 ^ (Z.pos (digits2_pos p) - 1))
    by (apply Z.pow_le_mono_r; lia). lia.
Qed.

Lemma humansize_loop_float_Ok remaining x i :
  exists x' i', humansize_loop remaining (NFloat x) i = Ok (NFloat x', i') /\
                (i <= i' <= i + remaining)%nat.
Proof.
  revert x i. induction remaining as [|r IH]; intros x i.
  - exists x, i. split; [done|lia].
  - rewrite humansize_loop_S. destruct (ge_1024 (NFloat x)).
    + unfold div_1024. cbn [to_float mbind result_bind mret result_ret].
      destruct (IH (SFdiv prec emax x float_1024) (i + 1)%nat) as (x' & i' & -> & Hi).
      exists x', i'. split; [done|lia].
    + exists x, i. split; [done|lia].
Qed.

Lemma suffixes_lookup i : (i <= 5)%nat -> is_Some (suffixes !! i).
Proof. intros Hi. apply lookup_lt_is_Some. simpl. lia. Qed.

Lemma humansize_float_of_int n :
  match float_of_int n with
  | Ok _ => is_Ok (humansize n)
  | Raise e => humansize n = Raise e
  end.
Proof.
  unfold humansize. change (length suffixes - 1)%nat with 5%nat.
  rewrite humansize_loop_S. destruct (ge_1024 (NInt n)).
  - unfold div_1024. cbn [to_float]. destruct (float_of_int n) as [x|e]; [|done].
    cbn [mbind result_bind mret result_ret].
    destruct (humansize_loop_float_Ok 4 (SFdiv prec emax x float_1024) (0 + 1))
      as (x' & i' & -> & Hi).
    unfold format_num_2f. cbn [mbind result_bind to_float mret result_ret].
    destruct (suffixes_lookup i') as [sfx ->]; [lia|]. by eexists.
  - unfold format_num_2f. cbn [mbind result_bind to_float].
    destruct (float_of_int n) as [x|e]; [|done].
    cbn [mbind result_bind mret result_ret]. by eexists.
Qed.

Lemma pow2_succ k : 0 <= k -> 2 ^ (k + 1) = 2 * 2 ^ k.
Proof. intros Hk. rewrite Z.pow_add_r by lia. change (2 ^ 1) with 2. lia. Qed.

Lemma pow2_pred k : 0 < k -> 2 ^ k = 2 * 2 ^ (k - 1).
Proof.
  intros Hk. rewrite <- pow2_succ by lia. f_equal. lia.
Qed.

Lemma shr_1_shifted p k mrs :
  0 <= k -> shifted p k mrs -> shifted p (k + 1) (shr_1 mrs).
Proof.
  intros Hk (Hm & Hr0 & t & Ht & Hlt & Hs & Hp).
  destruct mrs as [m r s]. cbn [shr_m shr_r shr_s] in *.
  pose proof (pow2_succ k Hk) as Hpow.
  assert (0 < 2 ^ k) as Hpos by (apply Z.pow_pos_nonneg; lia).
  unfold shifted. replace (k + 1 - 1) with k by lia. rewrite Hpow.
  assert (k = 0 \/ 0 < k) as [Hk0|Hk1] by lia.
  - subst k. specialize (Hr0 eq_refl). subst r.
    change (2 ^ (0 - 1)) with 0 in *. change (2 ^ 0) with 1 in *.
    assert (t = 0) as -> by lia.
    assert (s = false) as ->.
    { destruct s; [|done]. destruct Hs as [Hs _]. specialize (Hs eq_refl). lia. }
    unfold shr_1. cbn [orb].
    destruct m as [|[q|q|]|q]; cbn [shr_m shr_r shr_s]; try lia;
      (split; [lia|]; split; [lia|]; exists 0;
       split; [lia|]; split; [by left|]; split; [split; [done|lia]|lia]).
  - pose proof (pow2_pred k Hk1) as Hhalf.
    assert (0 < 2 ^ (k - 1)) as Hpos' by (apply Z.pow_pos_nonneg; lia).
    set (t' := (if r then 2 ^ (k - 1) else 0) + t) in *.
    assert (0 <= t' /\ t' < 2 ^ k) as [Ht'0 Ht'1] by (unfold t'; destruct r; lia).
    assert (orb r s = true <-> 0 < t') as Hs'.
    { unfold t'. destruct Hs as [Hs1 Hs2].
      destruct r, s; cbn [orb]; split; intros H; try done; try lia;
        try (specialize (Hs1 eq_refl); lia); try (apply Hs2; lia). }
    unfold shr_1.
    destruct m as [|[q|q|]|q]; cbn [shr_m shr_r shr_s]; try lia;
      (split; [lia|]; split; [lia|]; exists t';
       split; [lia|]; split; [by right|]; split; [exact Hs'|lia]).
Qed.

Lemma iter_shr_1_shifted p n k mrs :
  0 <= k -> shifted p k mrs ->
  shifted p (k + Z.pos n) (SpecFloat.iter_pos shr_1 n mrs).
Proof.
  revert k mrs. induction n as [n IH|n IH|]; intros k mrs Hk Hinv;
    cbn [SpecFloat.iter_pos].
  - replace (k + Z.pos n~1) with (k + 1 + Z.pos n + Z.pos n) by lia.
    apply IH; [lia|]. apply IH; [lia|]. by apply shr_1_shifted.
  - replace (k + Z.pos n~0) with (k + Z.pos n + Z.pos n) by lia.
    apply IH; [lia|]. by apply IH.
  - by apply shr_1_shifted.
Qed.

Lemma round_nearest_even_shifted p k mrs :
  0 < k -> shifted p k mrs ->
  let m := round_nearest_even (shr_m mrs) (loc_of_shr_record mrs) in
  shr_m mrs = p / 2 ^ k /\ shr_m mrs <= m <= shr_m mrs + 1 /\
  2 * Z.abs (m * 2 ^ k - p) <= 2 ^ k.
Proof.
  intros Hk (Hm & _ & t & Ht & Hlt & Hs & Hp).
  destruct mrs as [m r s]. cbn [shr_m shr_r shr_s] in *.
  pose proof (pow2_pred k Hk) as Hhalf.
  assert (0 < 2 ^ (k - 1)) as Hpos by (apply Z.pow_pos_nonneg; lia).
  assert (t < 2 ^ (k - 1)) as Ht' by lia.
  cbv zeta. split.
  - apply (Z.div_unique_pos _ _ _ ((if r then 2 ^ (k - 1) else 0) + t)).
    + destruct r; lia.
    + lia.
  - destruct r, s; cbn [loc_of_shr_record round_nearest_even].
    + assert (0 < t) by (by apply Hs). split; [lia|]. lia.
    + assert (t = 0) as ->.
      { destruct (Z.eq_dec t 0) as [|Hne]; [done|].
        destruct Hs as [_ Hs]. discriminate Hs. lia. }
      destruct (Z.even m); split; lia.
    + assert (0 < t) by (by apply Hs). split; [lia|]. lia.
    + assert (t = 0) as ->.
      { destruct (Z.eq_dec t 0) as [|Hne]; [done|].
        destruct Hs as [_ Hs]. discriminate Hs. lia. }
      split; [lia|]. lia.
Qed.

(** Converting an integer of more than 53 bits *)
Lemma float_of_int_large p :
  53 < Z.pos (digits2_pos p) ->
  exists m e,
    digits2_pos m = 53%positive /\
    Z.pos (digits2_pos p) - 53 <= e <= Z.pos (digits2_pos p) - 52 /\
    2 * Z.abs (Z.pos m * 2 ^ e - Z.pos p) <= 2 ^ (Z.pos (digits2_pos p) - 53) /\
    float_of_int (Z.pos p)
    = if e <=? 971 then Ok (S754_finite false m e) else Raise OverflowError.
Proof.
  intros Hd. pose proof (digits2_pos_bounds p) as [Hlo Hhi].
  set (d := Z.pos (digits2_pos p)) in *.
  unfold float_of_int, binary_normalize, binary_round.
  assert (shl_align p 0 (fexp prec emax (Z.pos (digits2_pos p) + 0)) = (p, 0)) as ->.
  { unfold shl_align, fexp, emin, prec, emax. fold d.
    replace (Z.max (d + 0 - 53) (3 - 1024 - 53) - 0) with (d - 53) by lia.
    destruct (d - 53) eqn:Hk; try done. lia. }
  unfold binary_round_aux, shr_fexp.
  cbn [Zdigits2 shr_record_of_loc]. fold d.
  assert (fexp prec emax (d + 0) - 0 = d - 53) as ->
    by (unfold fexp, emin, prec, emax; lia).
  destruct (d - 53) as [|k|k] eqn:Hk; try lia.
  cbn [shr].
  assert (shifted (Z.pos p) (0 + Z.pos k)
            (SpecFloat.iter_pos shr_1 k
               {| shr_m := Z.pos p; shr_r := false; shr_s := false |})) as Hinv.
  { apply iter_shr_1_shifted; [lia|]. split; [cbn; lia|]. split; [done|].
    exists 0. cbn [shr_m shr_r shr_s]. split; [lia|]. split; [by left|].
    split; [split; [done|lia]|]. change (2 ^ 0) with 1. lia. }
  rewrite Z.add_0_l in Hinv |- *.
  remember (SpecFloat.iter_pos shr_1 k
              {| shr_m := Z.pos p; shr_r := false; shr_s := false |}) as mrs eqn:Hmrs.
  destruct (round_nearest_even_shifted (Z.pos p) (Z.pos k) mrs ltac:(lia) Hinv) as (Hm1 & Hm2 & Hnear).
  remember (round_nearest_even (shr_m mrs) (loc_of_shr_record mrs)) as m2 eqn:Hm2eq.
  assert (0 < 2 ^ Z.pos k) as Hpos by (apply Z.pow_pos_nonneg; lia).
  assert (2 ^ 52 <= shr_m mrs < 2 ^ 53) as [Hm1lo Hm1hi].
  { rewrite Hm1.
    assert (2 ^ (d - 1) = 2 ^ 52 * 2 ^ Z.pos k) as Hlo'
      by (rewrite <- Z.pow_add_r by lia; f_equal; lia).
    assert (2 ^ d = 2 ^ 53 * 2 ^ Z.pos k) as Hhi'
      by (rewrite <- Z.pow_add_r by lia; f_equal; lia).
    split.
    - apply Z.div_le_lower_bound; lia.
    - apply Z.div_lt_upper_bound; lia. }
  destruct m2 as [|m|m]; try lia.
  assert (Z.pos m < 2 ^ 53 \/ Z.pos m = 2 ^ 53) as [Hlt|Heq] by lia.
  - assert (digits2_pos m = 53%positive) as Hdm
      by (apply digits2_pos_unique; change (Z.pos 53 - 1) with 52; lia).
    exists m, (Z.pos k). split; [done|]. split; [lia|]. split; [lia|].
    cbn [Zdigits2]. rewrite Hdm.
    replace (fexp prec emax (53 + Z.pos k) - Z.pos k) with 0
      by (unfold fexp, emin, prec, emax; lia).
    cbn [shr shr_m]. unfold emax, prec. change (1024 - 53) with 971.
    by destruct (Z.pos k <=? 971).
  - assert (m = (2 ^ 53)%positive) as -> by (apply Pos2Z.inj; rewrite Heq; done).
    exists (2 ^ 52)%positive, (Z.pos k + 1). split; [by vm_compute|].
    split; [lia|]. split.
    + replace (Z.pos (2 ^ 52) * 2 ^ (Z.pos k + 1)) with (Z.pos (2 ^ 53) * 2 ^ Z.pos k).
      * lia.
      * rewrite pow2_succ by lia.
        change (Z.pos (2 ^ 53)) with (Z.pos (2 ^ 52) * 2). lia.
    + cbn [Zdigits2].
      replace (digits2_pos (2 ^ 53)) with 54%positive by (by vm_compute).
      replace (fexp prec emax (54 + Z.pos k) - Z.pos k) with 1
        by (unfold fexp, emin, prec, emax; lia).
      cbn [shr SpecFloat.iter_pos].
      change (shr_1 {| shr_m := Z.pos (2 ^ 53); shr_r := false; shr_s := false |})
        with {| shr_m := Z.pos (2 ^ 52); shr_r := false; shr_s := false |}.
      cbn [shr_m]. unfold emax, prec. change (1024 - 53) with 971.
      by destruct (Z.pos k + 1 <=? 971).
Qed.

Lemma digits2_pos_log2 p : Z.pos (digits2_pos p) = Z.log2 (Z.pos p) + 1.
Proof.
  pose proof (digits2_pos_bounds p) as [Hlo Hhi].
  pose proof (Pos2Z.is_pos (digits2_pos p)).
  assert (Z.log2 (Z.pos p) = Z.pos (digits2_pos p) - 1) as ->; [|lia].
  apply Z.log2_unique; [lia|].
  replace (Z.succ (Z.pos (digits2_pos p) - 1)) with (Z.pos (digits2_pos p)) by lia.
  lia.
Qed.

Lemma digits_gt_53 p : 2 ^ 53 <= Z.pos p -> 53 < Z.pos (digits2_pos p).
Proof.
  intros Hp. pose proof (digits2_pos_bounds p) as [_ Hhi].
  destruct (Z.lt_ge_cases 53 (Z.pos (digits2_pos p))) as [|Hsmall]; [done|].
  assert (2 ^ Z.pos (digits2_pos p) <= 2 ^ 53) by (apply Z.pow_le_mono_r; lia). lia.
Qed.

Lemma float_to_Z_exact p :
  Z.pos (digits2_pos p) <= 53 ->
  float_to_Z (S754_finite false (mantissa p) (exponent p)) = Z.pos p.
Proof.
  intros Hd. unfold float_to_Z. rewrite mantissa_value by done. unfold exponent.
  pose proof (Pos2Z.is_pos (digits2_pos p)).
  destruct (0 <=? Z.pos (digits2_pos p) - 53) eqn:He.
  - apply Z.leb_le in He. replace (Z.pos (digits2_pos p)) with 53 by lia.
    change (53 - 53) with 0. change (2 ^ 0) with 1. lia.
  - apply Z.leb_gt in He.
    replace (- (Z.pos (digits2_pos p) - 53)) with (53 - Z.pos (digits2_pos p)) by lia.
    apply Z.div_mul. apply Z.pow_nonzero; lia.
Qed.

Lemma exact_unit_top n : 1024 ^ 5 <= n -> exact_unit 5 n 0 = 5%nat.
Proof.
  intros Hn. destruct (exact_unit_spec 5 n 0) as (Hrange & Hlt & _).
  cbv zeta in *.
  destruct (decide (exact_unit 5 n 0 = 5%nat)) as [|Hne]; [done|].
  specialize (Hlt ltac:(lia)).
  assert (1024 ^ Z.of_nat (exact_unit 5 n 0 + 1) <= 1024 ^ 5)
    by (apply Z.pow_le_mono_r; lia). lia.
Qed.

Lemma float_steps_all e : -2 <= e -> float_steps 4 (e - 10) = 4%nat.
Proof.
  intros He. cbn [float_steps].
  rewrite !(proj2 (Z.leb_le _ _)) by lia. done.
Qed.

(** A float of at least [2 ^ 53] is divided five times. *)
Lemma humansize_large p m e :
  2 ^ 53 <= Z.pos p -> digits2_pos m = 53%positive -> 1 <= e <= 971 ->
  float_of_int (Z.pos p) = Ok (S754_finite false m e) ->
  humansize (Z.pos p) = Ok (humansize_exact (Z.pos m * 2 ^ e)).
Proof.
  intros Hp Hm He Hx. unfold humansize, humansize_exact.
  change (length suffixes - 1)%nat with 5%nat.
  pose proof (digits2_pos_bounds m) as [Hmlo _]. rewrite Hm in Hmlo.
  change (2 ^ (Z.pos 53 - 1)) with (2 ^ 52) in Hmlo.
  assert (0 < 2 ^ e) as Hpos by (apply Z.pow_pos_nonneg; lia).
  assert (2 ^ 53 <= Z.pos m * 2 ^ e) as Hv.
  { assert (2 ^ 1 <= 2 ^ e) by (apply Z.pow_le_mono_r; lia).
    change (2 ^ 1) with 2 in *. change (2 ^ 53) with (2 ^ 52 * 2). nia. }
  rewrite exact_unit_top by (change (1024 ^ 5) with (2 ^ 50); lia).
  rewrite humansize_loop_S. cbn [ge_1024].
  rewrite (proj2 (Z.leb_le 1024 (Z.pos p))) by lia.
  unfold div_1024. cbn [to_float]. rewrite Hx.
  cbn [mbind result_bind mret result_ret].
  rewrite SFdiv_1024_exact by (try done; lia).
  rewrite humansize_loop_float by (try done; lia).
  rewrite float_steps_all by lia.
  cbn [mbind result_bind]. unfold format_num_2f.
  cbn [to_float mbind result_bind mret result_ret format_2f].
  change (suffixes !! (0 + 1 + 4)%nat) with (Some "PB"%string).
  change (nth 5 suffixes ""%string) with "PB"%string.
  cbv iota. do 4 f_equal.
  replace (e - 10 - 10 * Z.of_nat 4) with (e - 50) by lia.
  change (Z.of_nat 5) with 5. change (1024 ^ 5) with (2 ^ 50).
  unfold hundredths. destruct (0 <=? e - 50) eqn:Hge.
  - apply Z.leb_le in Hge.
    replace (100 * (Z.pos m * 2 ^ e)) with (Z.pos m * 100 * 2 ^ (e - 50) * 2 ^ 50).
    + rewrite <- (Z.mul_1_l (2 ^ 50)) at 2.
      rewrite round_half_even_scale by lia. by rewrite round_half_even_1.
    + replace e with (e - 50 + 50) at 2 by lia. rewrite Z.pow_add_r by lia. lia.
  - apply Z.leb_gt in Hge.
    replace (100 * (Z.pos m * 2 ^ e)) with (Z.pos m * 100 * 2 ^ e) by lia.
    replace (2 ^ 50) with (2 ^ (- (e - 50)) * 2 ^ e).
    + rewrite round_half_even_scale; [done| |done].
      apply Z.pow_pos_nonneg; lia.
    + rewrite <- Z.pow_add_r by lia. f_equal. lia.
Qed.

(** [humansize] applies the formatter of exact arithmetic to the float
    of the count. *)
Lemma humansize_float n :
  0 <= n ->
  match float_of_int n with
  | Ok x => humansize n = Ok (humansize_exact (float_to_Z x))
  | Raise e => e = OverflowError /\ humansize n = Raise OverflowError /\ 2 ^ 1023 <= n
  end.
Proof.
  intros Hn. destruct n as [|p|p]; [vm_compute; reflexivity| |lia].
  destruct (Z.lt_ge_cases (Z.pos p) (2 ^ 53)) as [Hsmall|Hbig].
  - pose proof (digits_le_53 p Hsmall) as Hd.
    rewrite float_of_int_exact by done. rewrite float_to_Z_exact by done.
    apply humansize_exact_correct. lia.
  - pose proof (digits_gt_53 p Hbig) as Hd.
    destruct (float_of_int_large p Hd) as (m & e & Hm & He & _ & Hx).
    pose proof (humansize_float_of_int (Z.pos p)) as Hh.
    rewrite Hx in Hh |- *. destruct (e <=? 971) eqn:Hle.
    + apply Z.leb_le in Hle. cbn [float_to_Z].
      rewrite (proj2 (Z.leb_le 0 e)) by lia.
      apply (humansize_large p m e Hbig Hm); [lia|exact Hx].
    + apply Z.leb_gt in Hle. split; [done|]. split; [done|].
      pose proof (digits2_pos_bounds p) as [Hlo _].
      assert (2 ^ 1023 <= 2 ^ (Z.pos (digits2_pos p) - 1))
        by (apply Z.pow_le_mono_r; lia). lia.
Qed.

(** The float of a count: the count itself below [2 ^ 53], a nearest
    float above. *)
Lemma float_of_int_near n x :
  0 <= n -> float_of_int n = Ok x ->
  (n < 2 ^ 53 -> float_to_Z x = n) /\
  (2 ^ 53 <= n ->
     2 ^ 53 <= float_to_Z x /\
     2 * Z.abs (float_to_Z x - n) <= 2 ^ (Z.log2 n - 52)).
Proof.
  intros Hn Hx. destruct n as [|p|p]; [|  |lia].
  - injection Hx as <-. split; [done|]. intros H. exfalso. revert H. by vm_compute.
  - split.
    + intros Hsmall. pose proof (digits_le_53 p Hsmall) as Hd.
      rewrite float_of_int_exact in Hx by done. injection Hx as <-.
      by apply float_to_Z_exact.
    + intros Hbig. pose proof (digits_gt_53 p Hbig) as Hd.
      destruct (float_of_int_large p Hd) as (m & e & Hm & He & Hnear & Hx').
      rewrite Hx' in Hx. destruct (e <=? 971); [|done]. injection Hx as <-.
      cbn [float_to_Z]. rewrite (proj2 (Z.leb_le 0 e)) by lia.
      rewrite digits2_pos_log2 in Hnear.
      replace (Z.log2 (Z.pos p) + 1 - 53) with (Z.log2 (Z.pos p) - 52) in Hnear by lia.
      split; [|done].
      pose proof (digits2_pos_bounds m) as [Hmlo _]. rewrite Hm in Hmlo.
      change (2 ^ (Z.pos 53 - 1)) with (2 ^ 52) in Hmlo.
      assert (2 ^ 1 <= 2 ^ e) by (apply Z.pow_le_mono_r; lia).
      change (2 ^ 1) with 2 in *. change (2 ^ 53) with (2 ^ 52 * 2). nia.
Qed.

Local Open Scope string_scope.

(** The count [65 * 2 ^ 47 + 1] is 8.125 PB and a little more, which
    two decimals render as 8.13; [humansize] prints 8.12, the float of
    the count being 8.125 PB exactly. And the count [2 ^ 1024] is not
    formatted at all: it has no float. *)
Lemma C8_counterexample :
  humansize (65 * 2 ^ 47 + 1) = Ok "8.12  PB" /\
  humansize_exact (65 * 2 ^ 47 + 1) = "8.13  PB" /\
  humansize (2 ^ 1024) = Raise OverflowError.
Proof. split; [|split]; vm_compute; reflexivity. Qed.

(** C8, as the code has it. [humansize] formats the float of the
    count. For a non-negative count that has a float, the result is
    that of exact arithmetic on the integer the float stands for: that
    integer divided by 1024 as often as the unit index says, rounded
    to two decimals, stripped of trailing zeros and of a trailing
    point, then two spaces and the unit. The float stands for the
    count itself below [2 ^ 53] and for an integer within half a unit
    in the last place of the count from [2 ^ 53] on; a count without
    a float, which is at least [2 ^ 1023], raises [OverflowError].
    The unit index is the number of divisions made while the value is
    at least 1024 and a larger unit remains: it is at most 5, the
    value left is below 1024 unless the index is 5, and it is at least
    1 when the index is positive. The five values of the
    specification hold, and [1024 ^ 6] is printed in PB, the last
    unit. *)
Theorem C8_humansize_formats :
  (forall n, 0 <= n ->
     match float_of_int n with
     | Ok x => humansize n = Ok (humansize_exact (float_to_Z x))
     | Raise e =>
         e = OverflowError /\ humansize n = Raise OverflowError /\ 2 ^ 1023 <= n
     end) /\
  (forall n x, 0 <= n -> float_of_int n = Ok x ->
     (n < 2 ^ 53 -> float_to_Z x = n) /\
     (2 ^ 53 <= n ->
        2 ^ 53 <= float_to_Z x /\
        2 * Z.abs (float_to_Z x - n) <= 2 ^ (Z.log2 n - 52))) /\
  (forall n, 0 <= n < 2 ^ 53 -> humansize n = Ok (humansize_exact n)) /\
  (forall n, let i := exact_unit (length suffixes - 1) n 0 in
     (i <= 5)%nat /\
     ((i < 5)%nat -> n < 1024 * 1024 ^ Z.of_nat i) /\
     ((0 < i)%nat -> 1024 ^ Z.of_nat i <= n)) /\
  humansize 0 = Ok "0  B" /\
  humansize 1023 = Ok "1023  B" /\
  humansize 1024 = Ok "1  KB" /\
  humansize 1536 = Ok "1.5  KB" /\
  humansize 1073741824 = Ok "1  GB" /\
  humansize (1024 ^ 6) = Ok "1024  PB".
Proof.
  split; [apply humansize_float|].
  split; [apply float_of_int_near|].
  split; [apply humansize_exact_correct|].
  split; [|repeat split; vm_compute; reflexivity].
  intros n. change (length suffixes - 1)%nat with 5%nat.
  destruct (exact_unit_spec 5 n 0) as (Hrange & Hlt & Hle).
  cbv zeta. split; [lia|split]; [|done].
  intros Hi. specialize (Hlt ltac:(lia)).
  rewrite Nat2Z.inj_add, Z.pow_add_r in Hlt by lia.
  change (1024 ^ Z.of_nat 1) with 1024 in Hlt. lia.
Qed.

Lemma C8_witness :
  0 <= 65 * 2 ^ 47 + 1 /\
  humansize (65 * 2 ^ 47 + 1)
  = Ok (humansize_exact (float_to_Z (S754_finite false (65 * 2 ^ 46) 1))).
Proof.
  assert (0 <= 65 * 2 ^ 47 + 1) as Hn by (vm_compute; discriminate).
  split; [exact Hn|].
  pose proof (proj1 C8_humansize_formats (65 * 2 ^ 47 + 1) Hn) as Hc.
  assert (float_of_int (65 * 2 ^ 47 + 1) = Ok (S754_finite false (65 * 2 ^ 46) 1)) as Hx
    by (vm_compute; reflexivity).
  rewrite Hx in Hc. exact Hc.
Defined.

Lemma foldlM_file_list items paths acc :
  Forall2 (fun item s => getitem item "filePath" = Ok (PStr s)) items paths ->
  foldlM (fun res str_path =>
            file_path ← getitem str_path "filePath";
            p ← Path_of file_path;
            mret (res ++ [p])%list) acc items
  = Ok (acc ++ map Path.of_str paths)%list.
Proof.
  intros Hitems. revert acc.
  induction Hitems as [|item s items paths Hitem _ IH]; intros acc; simpl.
  - by rewrite app_nil_r.
  - rewrite Hitem. simpl. rewrite IH, <- app_assoc. done.
Qed.

(** The record with size -1 and an empty file list is malformed for
    the specification; [MatchSet.__init__] constructs it all the
    same. *)
Lemma C6_counterexample :
  spec_malformed negative_size_record = true /\
  MatchSet.init negative_size_record = Ok (MatchSet.mk_attrs (PInt (-1)) []).
Proof. split; reflexivity. Qed.

(** C6, as the code has it. [MatchSet.__init__] raises [KeyError] when
    the record lacks the key "fileSize" or the key "fileList". When
    both are present and the file list holds records with a
    "filePath" string, it stores the size as given, whatever its type
    and sign, and the paths of the list, which may be empty. *)
Theorem C6_init_checks_only_the_keys (d : list (string * pyval)) :
  (dict_get d "fileSize" = None -> MatchSet.init (PDict d) = Raise KeyError) /\
  (forall size, dict_get d "fileSize" = Some size ->
     dict_get d "fileList" = None -> MatchSet.init (PDict d) = Raise KeyError) /\
  (forall size items paths,
     dict_get d "fileSize" = Some size ->
     dict_get d "fileList" = Some (PList items) ->
     Forall2 (fun item s => getitem item "filePath" = Ok (PStr s)) items paths ->
     MatchSet.init (PDict d)
       = Ok (MatchSet.mk_attrs size (map Path.of_str paths))).
Proof.
  unfold MatchSet.init, MatchSet._get_file_list. cbn [getitem].
  split_and!.
  - by intros ->.
  - by intros size -> ->.
  - intros size items paths -> -> Hitems. cbn [mbind result_bind iter].
    rewrite (foldlM_file_list items paths [] Hitems). done.
Qed.

Lemma C6_witness :
  MatchSet.init (PDict [("fileSize", PStr "big");
                        ("fileList", PList [file_entry "/d1/a"])])
  = Ok (MatchSet.mk_attrs (PStr "big") [Path.of_str "/d1/a"]).
Proof.
  refine (proj2 (proj2 (C6_init_checks_only_the_keys _)) (PStr "big")
            [file_entry "/d1/a"] ["/d1/a"] _ _ _).
  - reflexivity.
  - reflexivity.
  - repeat constructor.
Defined.

(** ** The object store *)

Section heap_facts.
Import Heap.

Lemma fresh_lookup (h : gmap loc obj) : h !! fresh (dom h) = None.
Proof. apply not_elem_of_dom, is_fresh. Qed.

Lemma subseteq_insert_fresh (h0 h : gmap loc obj) l o :
h0 ⊆ h -> h0 !! l = None -> h0 ⊆ <[l := o]> h.
Proof. intros Hsub Hl. by apply insert_subseteq_r. Qed.

Lemma subseteq_lookup_None (h0 h : gmap loc obj) l :
h0 ⊆ h -> h !! l = None -> h0 !! l = None.
Proof. intros Hsub Hl. by eapply lookup_weaken_None. Qed.

Lemma add_entry_spec h0 h r E m xs folder fp :
h0 ⊆ h -> h0 !! r = None -> h !! r = Some (EntriesObj E) ->
h0 !! file_list m = Some (ListObj xs) -> fp ∈ xs ->
exists h',
  add_entry r m folder fp h = (Ok (), h') /\ h0 ⊆ h' /\
  h' !! r = Some (EntriesObj
                    (pure_step folder (MatchSet.mk (id m) (file_size m) xs) E fp)).
Proof.
intros Hsub Hr0 Hr Hlist Hfp. unfold add_entry, pure_step.
case_decide as Hpar; [|by exists h].
pose proof (lookup_weaken _ _ _ _ Hlist Hsub) as Hlist'.
set (c := fresh (dom h)).
set (h1 := <[c := ListObj xs]> h).
set (o := fresh (dom h1)).
set (h2 := <[o := SetObj (list_to_set xs)]> h1).
set (h3 := <[o := SetObj (list_to_set xs ∖ {[fp]})]> h2).
assert (h !! c = None) as Hc by apply fresh_lookup.
assert (h1 !! o = None) as Ho by apply fresh_lookup.
assert (c <> r) as Hcr by (intros ->; congruence).
assert (o <> r) as Hor.
{ intros ->. unfold h1 in Ho. rewrite lookup_insert_ne in Ho by done. congruence. }
assert (h3 !! r = Some (EntriesObj E)) as Hr3.
{ unfold h3, h2, h1. by rewrite !lookup_insert_ne. }
exists (<[r := EntriesObj ({[entry_of (MatchSet.mk (id m) (file_size m) xs) fp]} ∪ E)]> h3).
split_and!.
- unfold list_copy, set_of, set_remove, frozenset, entries_add.
  unfold mbind, M_bind, bind, load_list, alloc, load_set, store, load_entries.
  rewrite Hlist'. fold c. fold h1.
  unfold h1 at 1. rewrite lookup_insert_eq. fold o. fold h2.
  unfold h2 at 1. rewrite lookup_insert_eq.
  rewrite decide_True by (by apply elem_of_list_to_set).
  fold h3. unfold h3 at 1. rewrite lookup_insert_eq. rewrite Hr3. done.
- apply subseteq_insert_fresh; [|done].
  unfold h3, h2. rewrite insert_insert_eq.
  apply subseteq_insert_fresh.
  + apply subseteq_insert_fresh; [done|]. by eapply subseteq_lookup_None.
  + apply (subseteq_lookup_None h0 h1); [|done].
    apply subseteq_insert_fresh; [done|]. by eapply subseteq_lookup_None.
- by rewrite lookup_insert_eq.
Qed.

Lemma inner_loop_spec h0 r m xs folder files :
forall h E,
  (forall fp, fp ∈ files -> fp ∈ xs) ->
  h0 ⊆ h -> h0 !! r = None -> h !! r = Some (EntriesObj E) ->
  h0 !! file_list m = Some (ListObj xs) ->
  exists h',
    for_each files (add_entry r m folder) h = (Ok (), h') /\ h0 ⊆ h' /\
    h' !! r = Some (EntriesObj
                      (foldl (pure_step folder (MatchSet.mk (id m) (file_size m) xs))
                             E files)).
Proof.
induction files as [|fp files IH]; intros h E Hin Hsub Hr0 Hr Hlist.
- by exists h.
- destruct (add_entry_spec h0 h r E m xs folder fp) as (h1 & Hrun & Hsub1 & Hr1);
    try done; [apply Hin; left|].
  destruct (IH h1 _ (fun fp' H' => Hin fp' (list_elem_of_further _ _ _ H'))
               Hsub1 Hr0 Hr1 Hlist) as (h' & Hrun' & Hsub' & Hr').
  exists h'. split_and!; [|done|done].
  cbn [for_each]. unfold mbind, M_bind, bind. by rewrite Hrun.
Qed.

Lemma view_lookup h m xs :
h !! file_list m = Some (ListObj xs) ->
view h m = MatchSet.mk (id m) (file_size m) xs.
Proof. intros Hl. unfold view. by rewrite Hl. Qed.

Lemma outer_loop_spec h0 r folder ms :
forall h E,
  (forall m, m ∈ ms -> exists xs, h0 !! file_list m = Some (ListObj xs)) ->
  h0 ⊆ h -> h0 !! r = None -> h !! r = Some (EntriesObj E) ->
  exists h',
    for_each ms (fun match_set =>
                   files ← load_list (file_list match_set);
                   for_each files (add_entry r match_set folder)) h
      = (Ok (), h') /\ h0 ⊆ h' /\
    h' !! r = Some (EntriesObj
                      (foldl (fun res m =>
                                foldl (pure_step folder m) res (MatchSet.file_list m))
                             E (view h0 <$> ms))).
Proof.
induction ms as [|m ms IH]; intros h E Hwf Hsub Hr0 Hr.
- by exists h.
- destruct (Hwf m) as [xs Hxs]; [left|].
  destruct (inner_loop_spec h0 r m xs folder xs h E) as (h1 & Hrun & Hsub1 & Hr1);
    try done.
  destruct (IH h1 _ (fun m' H' => Hwf m' (list_elem_of_further _ _ _ H'))
               Hsub1 Hr0 Hr1) as (h' & Hrun' & Hsub' & Hr').
  exists h'. split_and!; [|done|].
  + cbn [for_each]. unfold mbind, M_bind, bind at 1.
    unfold bind at 1, load_list. rewrite (lookup_weaken _ _ _ _ Hxs Hsub).
    by rewrite Hrun.
  + rewrite fmap_cons. cbn [foldl]. by rewrite (view_lookup h0 m xs Hxs).
Qed.

Lemma wf_weaken h h' cache : wf h cache -> h ⊆ h' -> wf h' cache.
Proof.
intros (D & HD & Hsets) Hsub. exists D. split; [by eapply lookup_weaken|].
intros folder l Hl. destruct (Hsets folder l Hl) as (ms & Hms & Hlists).
exists ms. split; [by eapply lookup_weaken|].
intros m Hm. destruct (Hlists m Hm) as [xs Hxs]. exists xs. by eapply lookup_weaken.
Qed.

Lemma heap_expected_weaken h h' cache folder :
wf h cache -> h ⊆ h' -> heap_expected h' cache folder = heap_expected h cache folder.
Proof.
intros (D & HD & Hsets) Hsub. unfold heap_expected.
rewrite HD, (lookup_weaken _ _ _ _ HD Hsub).
destruct (D !! folder) as [l|] eqn:Hl; [|done].
destruct (Hsets folder l Hl) as (ms & Hms & Hlists).
rewrite Hms, (lookup_weaken _ _ _ _ Hms Hsub). do 2 f_equal.
apply list_fmap_ext. intros _ m Hm%list_elem_of_lookup_2%elem_of_elements.
destruct (Hlists m Hm) as [xs Hxs].
by rewrite (view_lookup h m xs Hxs), (view_lookup h' m xs (lookup_weaken _ _ _ _ Hxs Hsub)).
Qed.

Lemma duplicates_in_folder_outcome h cache folder :
wf h cache ->
exists res h',
  duplicates_in_folder cache folder h = (res, h') /\ h ⊆ h' /\
  returned (res, h') = heap_expected h cache folder.
Proof.
intros (D & HD & Hsets). unfold duplicates_in_folder, heap_expected.
set (r := fresh (dom h)). set (h1 := <[r := EntriesObj ∅]> h).
assert (h !! r = None) as Hr0 by apply fresh_lookup.
assert (h ⊆ h1) as Hsub1 by (by apply insert_subseteq).
assert (h1 !! r = Some (EntriesObj ∅)) as Hr1 by apply lookup_insert_eq.
unfold dict_getitem, mbind, M_bind, bind, alloc, load_dict, load_match_sets, load_list.
fold r. fold h1.
rewrite (lookup_weaken _ _ _ _ HD Hsub1), HD.
destruct (D !! folder) as [l|] eqn:Hl.
- destruct (Hsets folder l Hl) as (ms & Hms & Hlists).
  unfold ret at 1. rewrite (lookup_weaken _ _ _ _ Hms Hsub1), Hms.
  destruct (outer_loop_spec h r folder (elements ms) h1 ∅) as (h' & Hrun & Hsub' & Hr');
    try done.
  { intros m Hm%elem_of_elements. by apply Hlists. }
  unfold mbind, M_bind, bind, load_list in Hrun. rewrite Hrun.
  exists (Ok r), h'. unfold ret, returned. by rewrite Hr'.
- by exists (Raise KeyError), h1.
Qed.

Lemma duplicates_in_folder_run h cache folder :
wf h cache ->
h ⊆ (duplicates_in_folder cache folder h).2 /\
returned (duplicates_in_folder cache folder h) = heap_expected h cache folder.
Proof.
intros (res & h' & -> & Hsub & Hret)%(duplicates_in_folder_outcome h cache folder).
done.
Qed.

Lemma heap_expected_pure h cache folder (self : JDupesOutput) :
wf h cache ->
JDupesOutput._folder_cache self = pure_cache h cache ->
JDupesOutput.duplicates_in_folder self folder = heap_expected h cache folder.
Proof.
intros (D & HD & Hsets) Hcache. unfold heap_expected. rewrite HD.
unfold pure_cache in Hcache. rewrite HD in Hcache.
pose proof (f_equal (fun c => c !! folder) Hcache) as Hlookup.
cbv beta in Hlookup. rewrite lookup_fmap in Hlookup.
destruct (D !! folder) as [l|] eqn:Hl; simpl in Hlookup.
- destruct (Hsets folder l Hl) as (ms & Hms & _). rewrite Hms in *.
  rewrite (duplicates_in_folder_pure self folder _ Hlookup). f_equal.
  apply set_eq. intros e. rewrite !elem_of_pure_outer.
  setoid_rewrite elem_of_elements. setoid_rewrite list_elem_of_fmap.
  setoid_rewrite elem_of_map. setoid_rewrite elem_of_elements. done.
- unfold JDupesOutput.duplicates_in_folder. by rewrite Hlookup.
Qed.

(** C10. In a well-formed store, two calls of [duplicates_in_folder]
  in a row on the same folder return the same set of entries, or
  raise the same exception. Every object that exists before a call,
  the file list of every match set, the folder cache and its sets
  among them, is unchanged after it. What a call returns is what the
  value-level model of the method computes. *)
Theorem C10_duplicates_in_folder_reads_only
  (h : gmap loc obj) (cache : loc) (folder : Path) :
wf h cache ->
let first := duplicates_in_folder cache folder h in
let second := duplicates_in_folder cache folder first.2 in
returned first = returned second /\
(forall l o, h !! l = Some o -> first.2 !! l = Some o) /\
(forall l o, first.2 !! l = Some o -> second.2 !! l = Some o) /\
returned first <> Raise TypeError /\
forall self : JDupesOutput,
  JDupesOutput._folder_cache self = pure_cache h cache ->
  returned first = JDupesOutput.duplicates_in_folder self folder.
Proof.
intros Hwf first second.
destruct (duplicates_in_folder_run h cache folder Hwf) as [Hsub1 Hret1].
fold first in Hsub1, Hret1.
pose proof (wf_weaken _ _ _ Hwf Hsub1) as Hwf1.
destruct (duplicates_in_folder_run first.2 cache folder Hwf1) as [Hsub2 Hret2].
fold second in Hsub2, Hret2.
split_and!.
- rewrite Hret1, Hret2. symmetry. by apply heap_expected_weaken.
- intros l o Hl. by eapply lookup_weaken.
- intros l o Hl. by eapply lookup_weaken.
- rewrite Hret1. unfold heap_expected. destruct Hwf as (D & -> & Hsets).
  destruct (D !! folder) as [l|] eqn:Hl; [|done].
  by destruct (Hsets folder l Hl) as (ms & -> & _).
- intros self Hself. rewrite Hret1. symmetry. by apply heap_expected_pure.
Qed.

Lemma example_heap_wf : wf example_heap 3%positive.
Proof.
exists {[Path.of_str "/d" := 2%positive]}. split; [done|].
intros folder l Hl. apply lookup_singleton_Some in Hl as [_ <-].
exists {[example_match_set]}. split; [done|].
intros m ->%elem_of_singleton. by eexists.
Qed.

Lemma C10_witness :
wf example_heap 3%positive /\
returned (duplicates_in_folder 3%positive (Path.of_str "/d") example_heap)
= returned (duplicates_in_folder 3%positive (Path.of_str "/d")
              (duplicates_in_folder 3%positive (Path.of_str "/d") example_heap).2).
Proof.
split; [exact example_heap_wf|].
exact (proj1 (C10_duplicates_in_folder_reads_only example_heap 3%positive
                (Path.of_str "/d") example_heap_wf)).
Defined.

End heap_facts.

(** * Further properties of the code *)

(** ** Links *)

Lemma relative_to_is_Ok p other :
  Path.is_relative_to p other = true ->
  Path.relative_to p other
  = Ok (Path.mk "" (drop (length (Path.tail other)) (Path.tail p))).
Proof. intros Hrel. unfold Path.relative_to. by rewrite Hrel. Qed.


Section link_facts.
Context `{World}.

Lemma create_link_target (self : NextcloudInfo) (path : Path) :
  exists target,
    (forall t, (if Path.is_relative_to path (NextcloudInfo.user_file_path self)
                then Path.relative_to path (NextcloudInfo.user_file_path self) = Ok t
                else t = path) <-> t = target) /\
    NextcloudInfo.create_link self path
    = (dir ← is_dir target;
       if (dir : bool) then NextcloudInfo._create_folder_link self target
       else (parent_link ← NextcloudInfo._create_folder_link self (Path.parent target);
             mret (parent_link +:+ "/" +:+ Path.name target))).
Proof.
  unfold NextcloudInfo.create_link.
  destruct (Path.is_relative_to path (NextcloudInfo.user_file_path self)) eqn:Hrel.
  - rewrite (relative_to_is_Ok _ _ Hrel). eexists. split; [|done].
    intros t. split; [by intros [= <-]|by intros ->].
  - exists path. split; [|done]. intros t. split; by intros ->.
Qed.

Lemma create_folder_link_Raise (self : NextcloudInfo) (path : Path) (e : exn) :
  NextcloudInfo._create_folder_link self path = Raise e <->
  quote (Path.str path) = Raise e.
Proof.
  unfold NextcloudInfo._create_folder_link.
  destruct (quote (Path.str path)); cbn [mbind result_bind mret result_ret];
    split; intros Heq; by try discriminate Heq.
Qed.


(** X1. [create_link] raises only what [is_dir] or [quote] raise.
    [relative_to], which raises [ValueError] for a path outside the
    user's directory, is called only behind the [is_relative_to]
    test, so the path tested and quoted is the path made relative
    when it lies under the user's directory and the path itself
    otherwise. [create_link] raises [e] exactly when [is_dir] raises
    [e] on that path, or [is_dir] returns and [quote] raises [e] on
    the string of that path, for a directory, or of its parent, for
    anything else. *)
Theorem create_link_raises_only_from_world
    (self : NextcloudInfo) (path : Path) (e : exn) :
  NextcloudInfo.create_link self path = Raise e <->
  exists target,
    (if Path.is_relative_to path (NextcloudInfo.user_file_path self)
     then Path.relative_to path (NextcloudInfo.user_file_path self) = Ok target
     else target = path) /\
    (is_dir target = Raise e \/
     exists dir, is_dir target = Ok dir /\
       quote (Path.str (if dir then target else Path.parent target)) = Raise e).
Proof.
  destruct (create_link_target self path) as (target & Htarget & ->).
  assert ((dir ← is_dir target;
           if (dir : bool) then NextcloudInfo._create_folder_link self target
           else (parent_link ← NextcloudInfo._create_folder_link self (Path.parent target);
                 mret (parent_link +:+ "/" +:+ Path.name target))) = Raise e
          <-> (is_dir target = Raise e \/
               exists dir, is_dir target = Ok dir /\
                 quote (Path.str (if dir then target else Path.parent target)) = Raise e))
    as Hbody.
  { destruct (is_dir target) as [dir|e0]; cbn [mbind result_bind].
    - assert ((Ok dir = Raise e \/
               exists dir', Ok dir = Ok dir' /\
                 quote (Path.str (if dir' then target else Path.parent target)) = Raise e)
              <-> quote (Path.str (if dir then target else Path.parent target)) = Raise e)
        as ->.
      { split; [|intros; right; eauto]. by intros [|(dir' & [= <-] & ?)]. }
      destruct dir; [apply create_folder_link_Raise|].
      unfold NextcloudInfo._create_folder_link.
      destruct (quote (Path.str (Path.parent target))) as [q|e1];
        cbn [mbind result_bind mret result_ret]; split; intros Heq;
        by try discriminate Heq.
    - split; [intros [= ->]; by left|].
      intros [[= ->]|(dir & Hdir & _)]; [done|discriminate Hdir]. }
  rewrite Hbody. split.
  - intros Hraise. exists target. split; [by apply Htarget|done].
  - intros (t & Ht%Htarget & Hraise). by subst t.
Qed.
End link_facts.

Lemma create_link_raises_only_from_world_witness :
  @NextcloudInfo.create_link offline_world ReportExample.info (ReportExample.file "p/a")
  = Raise OSError.
Proof.
  apply (proj2 (@create_link_raises_only_from_world offline_world ReportExample.info
                  (ReportExample.file "p/a") OSError)).
  exists (Path.of_str "p/a"). split; [vm_compute; reflexivity|]. left. reflexivity.
Defined.

(** ** Reading the detector's output *)

Lemma foldlM_snoc_mapM {A B} (f : A -> result B) l acc :
  foldlM (fun res x => y ← f x; mret (res ++ [y])%list) acc l
  = (fun ys => acc ++ ys)%list <$> mapM f l.
Proof.
  revert acc. induction l as [|x l IH]; intros acc; simpl.
  - by rewrite app_nil_r.
  - destruct (f x) as [y|e]; simpl; [|done].
    rewrite IH. destruct (mapM f l) as [ys|e]; simpl; [|done].
    by rewrite <- app_assoc.
Qed.

Lemma mapM_first_failure {A B} (f : A -> result B) good bad rest e :
  Forall (fun x => is_Ok (f x)) good -> f bad = Raise e ->
  mapM f (good ++ bad :: rest) = Raise e.
Proof.
  intros Hgood Hbad. induction Hgood as [|x good [y Hx] _ IH]; simpl.
  - by rewrite Hbad.
  - rewrite Hx. simpl. by rewrite IH.
Qed.


(** X2. [_get_matchsets] on a dict: without the key ["matchSets"] it
    raises [KeyError]. When the key holds a list, it returns exactly
    when [MatchSet(...)] returns on every record, with the results in
    the order of the records; and when some record fails after records
    that succeed, the exception of the first failing record is raised
    and no match set is returned. *)
Theorem get_matchsets_all_or_nothing (d : list (string * pyval)) :
  (dict_get d "matchSets" = None -> _get_matchsets (PDict d) = Raise KeyError) /\
  forall items, dict_get d "matchSets" = Some (PList items) ->
    (forall l, _get_matchsets (PDict d) = Ok l <->
               Forall2 (fun item a => MatchSet.init item = Ok a) items l) /\
    (forall good bad rest e,
       items = (good ++ bad :: rest)%list ->
       Forall (fun item => is_Ok (MatchSet.init item)) good ->
       MatchSet.init bad = Raise e ->
       _get_matchsets (PDict d) = Raise e).
Proof.
  unfold _get_matchsets. cbn [getitem]. split.
  - by intros ->.
  - intros items ->. cbn [mbind result_bind iter].
    rewrite (foldlM_snoc_mapM MatchSet.init items []). split.
    + intros l. rewrite <- mapM_result_Forall2.
      destruct (mapM MatchSet.init items); simpl; split; congruence.
    + intros good bad rest e -> Hgood Hbad.
      by rewrite (mapM_first_failure _ _ _ _ _ Hgood Hbad).
Qed.

Lemma get_matchsets_all_or_nothing_witness :
  _get_matchsets
    (PDict [("matchSets", PList [PDict [("fileSize", PInt 1); ("fileList", PList [])];
                                 PDict []])])
  = Raise KeyError.
Proof.
  apply (proj2 (get_matchsets_all_or_nothing
                  [("matchSets", PList [PDict [("fileSize", PInt 1); ("fileList", PList [])];
                                        PDict []])])
           [PDict [("fileSize", PInt 1); ("fileList", PList [])]; PDict []] eq_refl)
    with (good := [PDict [("fileSize", PInt 1); ("fileList", PList [])]])
         (bad := PDict []) (rest := []).
  - reflexivity.
  - constructor; [|constructor]. eexists. reflexivity.
  - reflexivity.
Defined.

(** X3. [_get_file_list] returns a list of paths exactly when the
    record has a ["fileList"] that can be iterated and every item
    visited is a dict holding a string under ["filePath"]; the paths
    are those strings, one per item and in the order of the items. *)
Theorem get_file_list_spec (json_data : pyval) (paths : list Path) :
  _get_file_list json_data = Ok paths <->
  exists file_list_json items,
    getitem json_data "fileList" = Ok file_list_json /\
    iter file_list_json = Ok items /\
    Forall2 (fun item p => exists s, getitem item "filePath" = Ok (PStr s) /\
                                     p = Path.of_str s) items paths.
Proof.
  unfold _get_file_list.
  destruct (getitem json_data "fileList") as [fl|e] eqn:Hfl; simpl.
  2:{ split; [done|]. by intros (? & ? & ? & _). }
  destruct (iter fl) as [items|e] eqn:Hit; simpl.
  2:{ split; [done|]. intros (? & ? & [= <-] & ? & _). congruence. }
  assert (forall acc,
    foldlM (fun res str_path =>
              file_path ← getitem str_path "filePath";
              p ← Path_of file_path; mret (res ++ [p])%list) acc items
    = (fun ys => acc ++ ys)%list <$> mapM path_of_entry items) as Hfold.
  { intros acc. rewrite <- (foldlM_snoc_mapM path_of_entry items acc).
    clear. revert acc. induction items as [|x items IH]; intros acc; [done|].
    simpl. unfold path_of_entry at 2.
    destruct (getitem x "filePath") as [v|]; simpl; [|done].
    destruct (Path_of v); simpl; [apply IH|done]. }
  rewrite Hfold. simpl.
  assert (forall item p, path_of_entry item = Ok p <->
            exists s, getitem item "filePath" = Ok (PStr s) /\ p = Path.of_str s) as Hentry.
  { intros item p. unfold path_of_entry.
    destruct (getitem item "filePath") as [v|]; simpl.
    - destruct v; simpl; split; try done; try (by intros (? & [= ?] & _)).
      + intros [= <-]. eauto.
      + by intros (? & [= <-] & ->).
    - split; [done|]. by intros (? & ? & _). }
  split.
  - intros Hm. exists fl, items. split_and!; [done|done|].
    destruct (mapM path_of_entry items) as [ys|] eqn:Hys; simpl in Hm; [|done].
    injection Hm as <-. apply mapM_result_Forall2 in Hys.
    eapply Forall2_impl; [exact Hys|]. intros item p. apply Hentry.
  - intros (fl' & items' & [= <-] & Hit' & Hall). rewrite Hit in Hit'.
    injection Hit' as <-.
    assert (mapM path_of_entry items = Ok paths) as ->; [|done].
    apply mapM_result_Forall2. eapply Forall2_impl; [exact Hall|].
    intros item p. apply Hentry.
Qed.

Lemma get_file_list_spec_witness :
  _get_file_list
    (PDict [("fileList", PList [PDict [("filePath", PStr "/d1/a")];
                                PDict [("filePath", PStr "/d2/a")]])])
  = Ok [Path.of_str "/d1/a"; Path.of_str "/d2/a"].
Proof.
  apply (proj2 (get_file_list_spec _ _)).
  eexists _, _. split; [reflexivity|]. split; [reflexivity|].
  repeat constructor; eexists; (split; reflexivity).
Defined.

(** ** The folder index and the entries of a folder *)

Lemma init_cache_lookup info (S : gset MatchSet) folder cached :
  _folder_cache (init info S) !! folder = Some cached ->
  forall ms, ms ∈ cached <->
    ms ∈ S /\ exists fp, fp ∈ file_list ms /\ Path.parent fp = folder.
Proof.
  intros Hc ms. simpl in Hc. rewrite (folder_cache_lookup S folder cached Hc).
  by rewrite elem_of_directory_list.
Qed.

Lemma init_cache_member info (S : gset MatchSet) ms fp :
  ms ∈ S -> fp ∈ file_list ms ->
  exists cached, _folder_cache (init info S) !! Path.parent fp = Some cached /\
                 ms ∈ cached.
Proof.
  intros Hms Hfp.
  destruct (proj2 (folder_cache_is_Some S (Path.parent fp))) as [cached Hc].
  { exists ms. split; [done|]. apply elem_of_directory_list. eauto. }
  exists cached. split; [done|].
  apply (init_cache_lookup info S _ _ Hc). eauto.
Qed.

(** X4. In a [JDupesOutput] built from a set of groups, every listed
    file of every group is reported by [duplicates_in_folder] for the
    folder that holds it, with the group's other files and size; and
    no other folder has an entry for that file. *)
Theorem member_reported_in_its_folder
    (info : NextcloudInfo) (S : gset MatchSet) (ms : MatchSet) (fp : Path) :
  ms ∈ S -> fp ∈ file_list ms ->
  (exists entries,
     duplicates_in_folder (init info S) (Path.parent fp) = Ok entries /\
     entry_of ms fp ∈ entries) /\
  (forall folder entries e,
     duplicates_in_folder (init info S) folder = Ok entries ->
     e ∈ entries -> DuplicateInFolder.in_duplicate_folder e = fp ->
     folder = Path.parent fp).
Proof.
  intros Hms Hfp. split.
  - destruct (init_cache_member info S ms fp Hms Hfp) as (cached & Hc & Hin).
    destruct (duplicates_in_folder_elem_of _ _ _ Hc) as (entries & Hrun & He).
    exists entries. split; [done|]. apply He. by exists ms, fp.
  - intros folder entries e Hrun He Hfile.
    destruct (_folder_cache (init info S) !! folder) as [cached|] eqn:Hc.
    + destruct (duplicates_in_folder_elem_of _ _ _ Hc) as (entries' & Hrun' & He').
      rewrite Hrun in Hrun'. injection Hrun' as <-.
      apply He' in He as (ms' & fp' & _ & _ & Hpar & ->). simpl in Hfile. by subst.
    + unfold duplicates_in_folder in Hrun. by rewrite Hc in Hrun.
Qed.

Lemma member_reported_in_its_folder_witness :
  exists entries,
    duplicates_in_folder (init Example.info Example.groups)
      (Path.parent (Path.of_str "/d2/a")) = Ok entries /\
    entry_of Example.group_A (Path.of_str "/d2/a") ∈ entries.
Proof.
  assert (Example.group_A ∈ Example.groups) as Hms
    by (unfold Example.groups; set_solver).
  assert (Path.of_str "/d2/a" ∈ file_list Example.group_A) as Hfp
    by (cbn [file_list Example.group_A]; set_solver).
  exact (proj1 (member_reported_in_its_folder Example.info Example.groups
                  Example.group_A (Path.of_str "/d2/a") Hms Hfp)).
Defined.

(** X5. Every folder of [folders_with_duplicates] has at least one
    entry: [duplicates_in_folder] returns for it and the set it
    returns is not empty. *)
Theorem reported_folder_has_entries
    (info : NextcloudInfo) (S : gset MatchSet) (folder : Path) :
  folder ∈ folders_with_duplicates (init info S) ->
  exists entries,
    duplicates_in_folder (init info S) folder = Ok entries /\ entries <> ∅.
Proof.
  intros (ms & Hms & (fp & Hfp & <-)%elem_of_directory_list)%elem_of_folders_with_duplicates.
  simpl in Hms.
  destruct (init_cache_member info S ms fp Hms Hfp) as (cached & Hc & Hin).
  destruct (duplicates_in_folder_elem_of _ _ _ Hc) as (entries & Hrun & He).
  exists entries. split; [done|].
  assert (entry_of ms fp ∈ entries) by (apply He; by exists ms, fp).
  set_solver.
Qed.

Lemma reported_folder_has_entries_witness :
  exists entries,
    duplicates_in_folder (init Example.info Example.groups) Example.d1 = Ok entries /\
    entries <> ∅.
Proof.
  apply (reported_folder_has_entries Example.info Example.groups Example.d1).
  apply elem_of_folders_with_duplicates. exists Example.group_A.
  split; [cbn [match_sets init]; unfold Example.groups; set_solver|].
  apply elem_of_directory_list. exists (Path.of_str "/d1/a").
  split; [cbn [file_list Example.group_A]; set_solver|vm_compute; reflexivity].
Defined.

(** X6. The entries refer to each other. When the entry of a file
    names [p] among the other copies, the folder that holds [p] has an
    entry for [p] of the same size that names the file in turn, and
    both entries stand for the same set of copies. *)
Theorem other_copies_are_reported_back
    (info : NextcloudInfo) (S : gset MatchSet) (folder : Path)
    (entries : gset DuplicateInFolder) (e : DuplicateInFolder) (p : Path) :
  duplicates_in_folder (init info S) folder = Ok entries ->
  e ∈ entries -> p ∈ DuplicateInFolder.other_paths e ->
  exists entries' e',
    duplicates_in_folder (init info S) (Path.parent p) = Ok entries' /\
    e' ∈ entries' /\
    DuplicateInFolder.in_duplicate_folder e' = p /\
    DuplicateInFolder.in_duplicate_folder e ∈ DuplicateInFolder.other_paths e' /\
    DuplicateInFolder.size e' = DuplicateInFolder.size e /\
    ({[p]} ∪ DuplicateInFolder.other_paths e')
    = ({[DuplicateInFolder.in_duplicate_folder e]} ∪ DuplicateInFolder.other_paths e).
Proof.
  intros Hrun He Hp.
  destruct (_folder_cache (init info S) !! folder) as [cached|] eqn:Hc.
  2:{ unfold duplicates_in_folder in Hrun. by rewrite Hc in Hrun. }
  destruct (duplicates_in_folder_elem_of _ _ _ Hc) as (entries0 & Hrun0 & He0).
  rewrite Hrun in Hrun0. injection Hrun0 as <-.
  apply He0 in He as (ms & fp & Hms & Hfp & Hpar & ->).
  apply (init_cache_lookup info S _ _ Hc) in Hms as [Hms _].
  simpl in Hp. apply elem_of_difference in Hp as [Hp Hne].
  apply elem_of_list_to_set in Hp. apply not_elem_of_singleton in Hne.
  destruct (init_cache_member info S ms p Hms Hp) as (cached' & Hc' & Hin').
  destruct (duplicates_in_folder_elem_of _ _ _ Hc') as (entries' & Hrun' & He').
  exists entries', (entry_of ms p). split_and!; try done.
  - apply He'. by exists ms, p.
  - simpl. apply elem_of_difference. split; [by apply elem_of_list_to_set|set_solver].
  - simpl. apply set_eq. intros x.
    assert (fp ∈ (list_to_set (file_list ms) : gset Path)) by (by apply elem_of_list_to_set).
    assert (p ∈ (list_to_set (file_list ms) : gset Path)) by (by apply elem_of_list_to_set).
    destruct (decide (x = p)), (decide (x = fp)); set_solver.
Qed.

Lemma other_copies_are_reported_back_witness :
  exists entries' e',
    duplicates_in_folder (init Example.info Example.groups)
      (Path.parent (Path.of_str "/d2/a")) = Ok entries' /\
    e' ∈ entries' /\
    DuplicateInFolder.in_duplicate_folder e' = Path.of_str "/d2/a" /\
    Path.of_str "/d1/a" ∈ DuplicateInFolder.other_paths e'.
Proof.
  assert (Example.group_A ∈ Example.groups) as Hms
    by (unfold Example.groups; set_solver).
  assert (Path.of_str "/d1/a" ∈ file_list Example.group_A) as Hfp
    by (cbn [file_list Example.group_A]; set_solver).
  destruct (init_cache_member Example.info Example.groups _ _ Hms Hfp)
    as (cached & Hc & Hin).
  destruct (duplicates_in_folder_elem_of _ _ _ Hc) as (entries & Hrun & He).
  assert (entry_of Example.group_A (Path.of_str "/d1/a") ∈ entries) as Hentry.
  { apply He. exists Example.group_A, (Path.of_str "/d1/a").
    split; [exact Hin|]. split; [exact Hfp|]. split; reflexivity. }
  assert (Path.of_str "/d2/a"
            ∈ DuplicateInFolder.other_paths
                (entry_of Example.group_A (Path.of_str "/d1/a"))) as Hp.
  { cbn [entry_of DuplicateInFolder.other_paths file_list Example.group_A].
    apply elem_of_difference. split; [set_solver|].
    apply not_elem_of_singleton. by vm_compute. }
  destruct (other_copies_are_reported_back _ _ _ _ _ _ Hrun Hentry Hp)
    as (entries' & e' & Hrun' & He' & Hfile & Hback & _).
  exists entries', e'. split; [exact Hrun'|]. split; [exact He'|].
  split; [exact Hfile|exact Hback].
Defined.

(** ** The two loops of the report *)

Lemma List_filter_sublist {A} (f : A -> bool) l : sublist (List.filter f l) l.
Proof.
  induction l as [|x l IH]; simpl; [constructor|].
  destruct (f x); by constructor.
Qed.

Lemma elem_of_List_filter {A} (f : A -> bool) l x :
  x ∈ List.filter f l <-> x ∈ l /\ f x = true.
Proof. rewrite !list_elem_of_In. apply filter_In. Qed.


Section report_facts.
Context `{World}.


(** X7. The non-duplicate files [to_markdown] records for a folder
    are the files of the folder's listing that are not a listed file
    of any group, in the order of the listing; a file of the listing
    is left out exactly when it lies directly in the folder and some
    group lists it. *)
Theorem not_duplicate_files_spec
    (info : NextcloudInfo) (S : gset MatchSet) (folders : list folder_entry) :
  sorted_folders (init info S) = Ok folders ->
  forall entry, entry ∈ folders ->
    exists all_files,
      iterdir entry.1.1 = Ok all_files /\
      sublist entry.2 all_files /\
      forall x, x ∈ entry.2 <->
        x ∈ all_files /\
        ~ (Path.parent x = entry.1.1 /\ exists ms, ms ∈ S /\ x ∈ file_list ms).
Proof.
  intros (_ & Hparsed & _)%sorted_folders_spec entry Hentry.
  apply (proj1 (Forall_forall _ _) Hparsed) in Hentry as (all_files & Hlist & Hrun & Hnd).
  exists all_files. split; [done|]. rewrite Hnd. split; [apply List_filter_sublist|].
  intros x. rewrite elem_of_List_filter, bool_decide_eq_true.
  assert ((x ∈ (set_map DuplicateInFolder.in_duplicate_folder entry.1.2 : gset Path))
          <-> Path.parent x = entry.1.1 /\ exists ms, ms ∈ S /\ x ∈ file_list ms)
    as Hdup; [|by rewrite Hdup].
  destruct (_folder_cache (init info S) !! entry.1.1) as [cached|] eqn:Hc.
  2:{ unfold duplicates_in_folder in Hrun. by rewrite Hc in Hrun. }
  destruct (duplicates_in_folder_elem_of _ _ _ Hc) as (entries & Hrun' & He).
  rewrite Hrun in Hrun'. injection Hrun' as <-.
  rewrite elem_of_map. split.
  - intros (e & -> & (ms & fp & Hms & Hfp & Hpar & ->)%He). simpl.
    split; [done|]. exists ms. split; [|done].
    by apply (init_cache_lookup info S _ _ Hc) in Hms as [Hms _].
  - intros (Hpar & ms & Hms & Hx). exists (entry_of ms x). split; [done|].
    apply He. exists ms, x. split_and!; try done.
    apply (init_cache_lookup info S _ _ Hc). eauto.
Qed.



(** X9. Ties of the sort keep the order of the first loop. The
    sorted folder entries are a permutation of the entries the first
    loop collects, one per folder of [folders_with_duplicates] in the
    order that set is visited; and the entries with any given number
    of non-duplicate files come in the sorted list in the order they
    were collected. *)
Theorem equal_counts_keep_visit_order (self : JDupesOutput) (folders : list folder_entry) :
  sorted_folders self = Ok folders ->
  exists parsed,
    foldlM (parse_folder self) [] (elements (folders_with_duplicates self)) = Ok parsed /\
    parsed.*1.*1 = elements (folders_with_duplicates self) /\
    folders ≡ₚ parsed /\
    forall k, filter (fun entry : folder_entry => length entry.2 = k) folders
              = filter (fun entry : folder_entry => length entry.2 = k) parsed.
Proof.
  unfold sorted_folders. intros Hrun.
  destruct (foldlM _ _ _) as [parsed|] eqn:Hp; simpl in Hrun; [|done].
  injection Hrun as <-. exists parsed. split; [done|].
  apply parse_folders_spec in Hp as (es & -> & Hfs & _). simpl.
  split_and!; [done|apply sorted_Permutation|].
  intros k. apply (sorted_stable (fun x : folder_entry => length x.2)).
Qed.

(** X10. Without any group the report is its four header lines: no
    folder is listed, the counts are 0 and the total is ["0  B"]. *)
Theorem report_of_no_groups (info : NextcloudInfo) :
  to_markdown (init info ∅)
  = Ok (join newline
          [ "# Duplikate von " +:+ NextcloudInfo.user info;
            "Es gibt 0 Duplikate in 0 Ordnern.  ";
            "Diese sind insgesamt 0  B groß.";
            "## Alle Ordner mit Duplikaten" ]).
Proof.
  unfold to_markdown, report_lines, sorted_folders, header,
    folders_with_duplicates, total_size.
  cbn [match_sets init _nextcloud_info]. rewrite !elements_empty.
  cbn [foldl foldlM mbind result_bind mret result_ret sorted foldr map].
  rewrite elements_empty. cbn [foldlM].
  change (humansize (sum [])) with (Ok "0  B" : result string).
  cbn [mbind result_bind mret result_ret]. rewrite !size_empty. done.
Qed.
End report_facts.

Lemma not_duplicate_files_spec_witness :
  exists folders,
    @sorted_folders ReportExample.world ReportExample.output = Ok folders /\
    forall entry, entry ∈ folders ->
      exists all_files,
        @iterdir ReportExample.world entry.1.1 = Ok all_files /\
        sublist entry.2 all_files.
Proof.
  destruct (is_Ok_b_true (@sorted_folders ReportExample.world ReportExample.output))
    as [folders Hf]; [vm_compute; reflexivity|].
  exists folders. split; [exact Hf|]. intros entry Hentry.
  destruct (@not_duplicate_files_spec ReportExample.world ReportExample.info
              {[ReportExample.group]} folders Hf entry Hentry)
    as (all_files & Hlist & Hsub & _).
  exists all_files. split; [exact Hlist|exact Hsub].
Defined.


Lemma equal_counts_keep_visit_order_witness :
  exists folders parsed,
    @sorted_folders ReportExample.world ReportExample.output = Ok folders /\
    folders ≡ₚ parsed /\
    parsed.*1.*1 = elements (folders_with_duplicates ReportExample.output).
Proof.
  destruct (is_Ok_b_true (@sorted_folders ReportExample.world ReportExample.output))
    as [folders Hf]; [vm_compute; reflexivity|].
  destruct (@equal_counts_keep_visit_order ReportExample.world ReportExample.output
              folders Hf) as (parsed & _ & Hfolders & Hperm & _).
  exists folders, parsed. split; [exact Hf|]. split; [exact Hperm|exact Hfolders].
Defined.

(** ** [humansize] off the range of the units *)

Lemma rstrip_app_keep c s t :
  rstrip c t <> "" -> rstrip c (s +:+ t) = s +:+ rstrip c t.
Proof.
  intros Ht. induction s as [|a s IH]; [done|].
  change (String a s +:+ t) with (String a (s +:+ t)).
  change (rstrip c (String a (s +:+ t)))
    with (match rstrip c (s +:+ t) with
          | EmptyString => if Ascii.eqb a c then EmptyString else String a EmptyString
          | r => String a r
          end).
  rewrite IH.
  change (String a s +:+ rstrip c t) with (String a (s +:+ rstrip c t)).
  destruct (s +:+ rstrip c t) eqn:Hs; [|done].
  destruct s; [done|discriminate].
Qed.

Lemma rstrip_app_char c s : rstrip c (s +:+ String c "") = rstrip c s.
Proof.
  induction s as [|a s IH].
  - simpl. by rewrite Ascii.eqb_refl.
  - change (String a s +:+ String c "") with (String a (s +:+ String c "")).
    change (rstrip c (String a (s +:+ String c "")))
      with (match rstrip c (s +:+ String c "") with
            | EmptyString => if Ascii.eqb a c then EmptyString else String a EmptyString
            | r => String a r
            end).
    by rewrite IH.
Qed.

Lemma rstrip_avoids c s : avoids c s -> rstrip c s = s.
Proof.
  induction s as [|a s IH]; [done|]. intros [Ha Hs]. cbn [rstrip].
  rewrite IH by done. destruct s; [|done].
  by rewrite (proj2 (Ascii.eqb_neq a c) Ha).
Qed.

Lemma avoids_app c s t : avoids c s -> avoids c t -> avoids c (s +:+ t).
Proof. induction s as [|a s IH]; [done|]. intros [? ?] ?. split; auto. Qed.

Lemma pretty_N_go_avoids_dot x s : avoids "." s -> avoids "." (pretty_N_go x s).
Proof.
  revert s. induction (N.lt_wf_0 x) as [x _ IH]; intros s Hs.
  assert (x = 0 \/ 0 < x)%N as [->|Hx] by lia; [done|].
  rewrite pretty_N_go_step by done. apply IH; [by apply N.div_lt|].
  split; [|done]. unfold pretty_N_char. by repeat case_match.
Qed.

Lemma pretty_pos_avoids_dot (p : positive) : avoids "." (pretty (Z.pos p)).
Proof.
  unfold pretty, pretty_Z, pretty, pretty_positive, pretty, pretty_N.
  rewrite decide_False by done. by apply pretty_N_go_avoids_dot.
Qed.

Lemma strip_fixed2_int s (p : positive) :
  rstrip "." (rstrip "0" (fixed2 s (100 * Z.pos p)))
  = sign_str s +:+ pretty (Z.pos p).
Proof.
  unfold fixed2.
  replace (100 * Z.pos p / 100) with (Z.pos p)
    by (symmetry; rewrite Z.mul_comm; apply Z.div_mul; lia).
  replace ((100 * Z.pos p) `mod` 100) with 0
    by (symmetry; rewrite Z.mul_comm; apply Z.mod_mul; lia).
  replace ((100 * Z.pos p) `mod` 10) with 0.
  2:{ symmetry. replace (100 * Z.pos p) with (10 * Z.pos p * 10) by lia.
      apply Z.mod_mul. lia. }
  change (pretty (0 `div` 10)) with "0". change (pretty 0) with "0".
  change ("." +:+ "0" +:+ "0") with ".00".
  set (P := pretty (Z.pos p)).
  replace (sign_str s +:+ P +:+ ".00") with ((sign_str s +:+ P) +:+ ".00")
    by (by destruct s).
  rewrite (rstrip_app_keep "0" _ ".00") by done.
  change (rstrip "0" ".00") with ("." : string).
  rewrite (rstrip_app_char "." (sign_str s +:+ P)).
  apply rstrip_avoids. apply avoids_app; [by destruct s|apply pretty_pos_avoids_dot].
Qed.

Lemma hundredths_int p :
  Z.pos (digits2_pos p) <= 53 ->
  hundredths (mantissa p) (exponent p) = 100 * Z.pos p.
Proof.
  intros Hd. destruct (Z.lt_ge_cases (exponent p) 0) as [Hneg|Hnn].
  - replace (exponent p) with (exponent p - 10 * 0) by lia.
    rewrite hundredths_exact by (try done; lia).
    change (1024 ^ 0) with 1. apply round_half_even_1.
  - unfold hundredths. rewrite (proj2 (Z.leb_le _ _)) by done.
    rewrite mantissa_value by done. unfold exponent in *.
    replace (Z.pos (digits2_pos p)) with 53 by lia. simpl. lia.
Qed.

Lemma float_of_int_neg_exact p :
  Z.pos (digits2_pos p) <= 53 ->
  float_of_int (Z.neg p) = Ok (S754_finite true (mantissa p) (exponent p)).
Proof.
  intros Hd. unfold float_of_int, binary_normalize, binary_round.
  assert (shl_align p 0 (fexp prec emax (Z.pos (digits2_pos p) + 0))
          = (mantissa p, exponent p)) as ->.
  { unfold shl_align, fexp, emin, prec, emax, mantissa, exponent.
    pose proof (Pos2Z.is_pos (digits2_pos p)).
    replace (Z.max (Z.pos (digits2_pos p) + 0 - 53) (3 - 1024 - 53) - 0)
      with (- (53 - Z.pos (digits2_pos p))) by lia.
    replace (Z.max (Z.pos (digits2_pos p) + 0 - 53) (3 - 1024 - 53))
      with (Z.pos (digits2_pos p) - 53) by lia.
    destruct (53 - Z.pos (digits2_pos p)) as [|k|k] eqn:Hk; simpl; [|done|lia].
    f_equal. lia. }
  rewrite binary_round_aux_exact; [done|by apply mantissa_digits|].
  unfold exponent. pose proof (Pos2Z.is_pos (digits2_pos p)). lia.
Qed.


(** X11. A count below 1024, a negative one included, is printed in
    bytes as the integer itself: the loop does not run, and the two
    decimals [".00"] of the float are stripped. (Exact for counts
    above [- 2 ^ 53], which a float holds without rounding.) *)
Theorem humansize_unscaled (n : Z) :
  - 2 ^ 53 < n < 1024 -> humansize n = Ok (pretty n +:+ "  B").
Proof.
  intros [Hlo Hhi]. unfold humansize.
  change (length suffixes - 1)%nat with 5%nat. rewrite humansize_loop_S.
  cbn [ge_1024]. rewrite (proj2 (Z.leb_gt _ _)) by lia.
  cbn [mbind result_bind]. unfold format_num_2f. cbn [to_float].
  destruct n as [|p|p].
  - vm_compute. reflexivity.
  - assert (Z.pos (digits2_pos p) <= 53) as Hd by (apply digits_le_53; lia).
    rewrite float_of_int_exact by done.
    cbn [mbind result_bind mret result_ret format_2f].
    rewrite hundredths_int by done. rewrite strip_fixed2_int. done.
  - assert (Z.pos (digits2_pos p) <= 53) as Hd by (apply digits_le_53; lia).
    rewrite float_of_int_neg_exact by done.
    cbn [mbind result_bind mret result_ret format_2f].
    rewrite hundredths_int by done. rewrite strip_fixed2_int. done.
Qed.

Lemma humansize_unscaled_witness :
  - 2 ^ 53 < -5000 < 1024 /\ humansize (-5000) = Ok (pretty (-5000) +:+ "  B").
Proof.
  assert (- 2 ^ 53 < -5000 < 1024) as Hn by (split; reflexivity).
  split; [exact Hn|]. exact (humansize_unscaled (-5000) Hn).
Defined.

(** X12. A whole number [k] of units, [1 <= k < 1024], is printed
    without decimals in its own unit, for each of the six units:
    [k * 1024 ^ i] gives [k] and the [i]-th suffix. *)
Theorem humansize_whole_units (k : Z) (i : nat) :
  1 <= k < 1024 -> (i <= 5)%nat ->
  humansize (k * 1024 ^ Z.of_nat i) = Ok (pretty k +:+ "  " +:+ nth i suffixes "").
Proof.
  intros Hk Hi.
  assert (forallb (fun i => forallb (whole_unit_ok i) (seqZ 1 1023)) (seq 0 6) = true)
    as Hall by (vm_compute; reflexivity).
  rewrite forallb_forall in Hall.
  specialize (Hall i ltac:(apply in_seq; lia)).
  rewrite forallb_forall in Hall.
  specialize (Hall k ltac:(apply list_elem_of_In, elem_of_seqZ; lia)).
  unfold whole_unit_ok, result_str_eqb in Hall.
  destruct (humansize (k * 1024 ^ Z.of_nat i)) as [s|]; [|done].
  by apply String.eqb_eq in Hall as ->.
Qed.

Lemma humansize_whole_units_witness :
  1 <= 512 < 1024 /\ (5 <= 5)%nat /\
  humansize (512 * 1024 ^ Z.of_nat 5) = Ok (pretty 512 +:+ "  " +:+ nth 5 suffixes "").
Proof.
  assert (1 <= 512 < 1024) as Hk by (split; [lia|reflexivity]).
  assert (5 <= 5)%nat as Hi by lia.
  split; [exact Hk|]. split; [exact Hi|].
  exact (humansize_whole_units 512 5 Hk Hi).
Defined.


(** X13. [humansize] raises only [OverflowError], and exactly when
    the count is an [int] too large for a float: the divisions and the
    formatting of a float never fail, and the index of the suffix
    never leaves the list, so no [IndexError] is raised. *)
Theorem humansize_raises_only_overflow (n : Z) (e : exn) :
  humansize n = Raise e <-> e = OverflowError /\ float_of_int n = Raise OverflowError.
Proof.
  pose proof (humansize_float_of_int n) as Hn.
  assert (forall e', float_of_int n = Raise e' -> e' = OverflowError) as Hov.
  { unfold float_of_int. intros e'. by destruct (binary_normalize _ _ _ _ _); intros [=]. }
  destruct (float_of_int n) as [x|e0] eqn:Hf.
  - destruct Hn as [s ->]. split; [done|]. by intros [_ ?].
  - rewrite Hn. pose proof (Hov e0 eq_refl) as ->.
    split; [by intros [= <-]|by intros [-> _]].
Qed.

Lemma humansize_raises_only_overflow_witness :
  humansize (2 ^ 1024) = Raise OverflowError.
Proof.
  apply (proj2 (humansize_raises_only_overflow (2 ^ 1024) OverflowError)).
  split; [reflexivity|]. vm_compute. reflexivity.
Defined.

(** ** The report is produced *)









Section report_totality.
Context `{World}.




End report_totality.

